(** * TinkerCAD to ThingsBoard bridge: extractor, sink client, rate limiter
      and streaming loop, embedded from the Python sources

    - [src/data_processor.py]     : [JSON_PATTERN], [DataProcessor]
    - [src/thingsboard_client.py] : [ThingsBoardClient]
    - [src/browser_automation.py] : [TinkerCADAutomation.read_serial_output],
                                    [SerialMonitor]
    - [src/main.py]               : [RateLimiter], [run_bridge], [main]
    - [config/settings.py]        : [validate_config]

    Python [str] values are sequences of Unicode code points, modelled as
    lists of [N].  Counters are Python integers, modelled as [nat].  Wall
    clock readings and the rates computed from the counters are Python
    floats; they are modelled by exact rationals ([Q]), so rounding is not
    part of this development.  The two rates of the configuration are
    converted from text, which also yields infinities and nan: they are
    [pyfloat]s.  The limits of the interpreter that the decoder runs
    into (recursion depth, digits of an integer literal) are the fields of
    an [Interpreter]. *)

From Stdlib Require Import List Ascii String NArith ZArith QArith Qminmax Arith Bool Lia Lqa Sorted.
Import ListNotations.
Local Close Scope Q_scope.

Set Implicit Arguments.
Set Warnings "-register-all".

(* ===================================================================== *)
(** * Text *)
(* ===================================================================== *)

Definition str := list N.

(** Code point of an ASCII character, and the text of a Rocq string
    literal. *)
Definition chr (a : ascii) : N := N_of_ascii a.
Arguments chr a%_char.
Definition py (s : string) : str := map N_of_ascii (list_ascii_of_string s).

(** The text of a literal in which every apostrophe stands for a double
    quote, to write JSON samples. *)
Definition js (s : string) : str :=
  map (fun c => if N.eqb c 39 then 34%N else c) (py s).

Definition DQUOTE : N := 34.
Definition LBRACE : N := Eval cbv in chr "{".
Definition RBRACE : N := Eval cbv in chr "}".

(** [s[i:]] and [s[i:j]] for in-range, non-negative indices. *)
Definition slice_from (i : nat) (s : str) : str := skipn i s.
Definition slice (i j : nat) (s : str) : str := firstn (j - i) (skipn i s).

(* ===================================================================== *)
(** * Exceptions *)
(* ===================================================================== *)

(** The exception classes that the sources distinguish.  All but
    [KeyboardInterrupt] derive from [Exception]. *)
Inductive exn : Type :=
| KeyboardInterrupt
| JSONDecodeError
| RecursionError
| ValueError
| Timeout
| ConnectionError
| OtherException.

Definition is_Exception (e : exn) : bool :=
  match e with
  | KeyboardInterrupt => false
  | _ => true
  end.

Inductive result (A : Type) : Type :=
| Ok (a : A)
| Raise (e : exn).
Arguments Ok {A} a.
Arguments Raise {A} e.

(* ===================================================================== *)
(** * The interpreter *)
(* ===================================================================== *)

(** The two limits of the interpreter that [json.loads] runs into.

    - [max_nesting]: how many containers (objects and arrays) deep the
      decoder can go, at the place where [_parse_json] calls it, before the
      recursion limit is hit.  The scanner enters one recursion level for
      every object and every array it opens, the outermost included.
    - [int_max_str_digits]: [sys.get_int_max_str_digits()], the largest
      number of digits of an integer literal that [int] converts; [0]
      for no limit.  Literals of up to 640 digits are never refused. *)
Class Interpreter : Type := {
  max_nesting : nat;
  int_max_str_digits : nat
}.

(** A Python float: a finite value, an infinity or nan. *)
Inductive pyfloat : Type :=
| Fin (q : Q)
| Inf
| NegInf
| NaN.

(** [x <= 0] on floats: false for nan. *)
Definition float_le_zero (x : pyfloat) : bool :=
  match x with
  | Fin q => Qle_bool q 0
  | NegInf => true
  | Inf => false
  | NaN => false
  end.

(* ===================================================================== *)
(** * The JSON decoder used by [_parse_json] ([json.loads]) *)
(* ===================================================================== *)

Module Json.
Local Open Scope N_scope.

(** Decoded values.  A Python [dict] is kept as an association list with
    pairwise distinct keys, in insertion order.  Integers are exact;
    a number with a fraction or an exponent, and the constants [NaN],
    [Infinity] and [-Infinity], decode to a float which is kept as its
    lexeme. *)
Inductive JValue : Type :=
| JNull
| JBool (b : bool)
| JInt (z : Z)
| JFloat (lexeme : str)
| JStr (s : str)
| JArr (l : list JValue)
| JObj (d : list (str * JValue)).

Definition Dict := list (str * JValue).

Fixpoint str_eqb (a b : str) : bool :=
  match a, b with
  | [], [] => true
  | x :: a', y :: b' => N.eqb x y && str_eqb a' b'
  | _, _ => false
  end.

(** [d[k] = v] *)
Fixpoint dict_set (k : str) (v : JValue) (d : Dict) : Dict :=
  match d with
  | [] => [(k, v)]
  | (k', v') :: d' =>
      if str_eqb k k' then (k', v) :: d' else (k', v') :: dict_set k v d'
  end.

(** [dict(pairs)] *)
Definition dict_of_pairs (pairs : list (str * JValue)) : Dict :=
  fold_left (fun d kv => dict_set (fst kv) (snd kv) d) pairs [].

(** Outcome of a scanning function: a value and the rest of the input,
    a syntax error ([JSONDecodeError]), another exception, or fuel
    exhausted. *)
Inductive pres (A : Type) : Type :=
| POk (a : A) (rest : str)
| PErr
| PRaise (e : exn)
| PFuel.
Arguments POk {A} a rest.
Arguments PErr {A}.
Arguments PRaise {A} e.
Arguments PFuel {A}.

Definition is_ws (c : N) : bool :=
  N.eqb c 32 || N.eqb c 9 || N.eqb c 10 || N.eqb c 13.

Fixpoint skip_ws (s : str) : str :=
  match s with
  | c :: s' => if is_ws c then skip_ws s' else s
  | [] => []
  end.

Fixpoint strip_prefix (p s : str) : option str :=
  match p, s with
  | [], _ => Some s
  | x :: p', y :: s' => if N.eqb x y then strip_prefix p' s' else None
  | _ :: _, [] => None
  end.

Definition is_digit (c : N) : bool := N.leb 48 c && N.leb c 57.

Fixpoint take_digits (s : str) : str * str :=
  match s with
  | c :: s' =>
      if is_digit c then let (ds, r) := take_digits s' in (c :: ds, r)
      else ([], s)
  | [] => ([], [])
  end.

Definition digits_value (ds : str) : Z :=
  fold_left (fun acc c => (10 * acc + Z.of_N (c - 48))%Z) ds 0%Z.

(** The integer part of a number, an optional minus sign followed by
    a zero or by a digit sequence without leading zero: the sign, the
    digits and the rest. *)
Definition scan_integer (s : str) : option (bool * str * str) :=
  let (neg, s1) := match s with
                   | c :: s' => if N.eqb c (chr "-") then (true, s') else (false, s)
                   | [] => (false, s)
                   end in
  match s1 with
  | c :: s2 =>
      if N.eqb c (chr "0") then Some (neg, [c], s2)
      else if is_digit c then
        let (ds, r) := take_digits s2 in Some (neg, c :: ds, r)
      else None
  | [] => None
  end.

(** The optional fraction: a dot followed by at least one digit. *)
Definition scan_frac (s : str) : str * str :=
  match s with
  | c :: s1 =>
      if N.eqb c (chr ".") then
        match take_digits s1 with
        | ([], _) => ([], s)
        | (ds, r) => (c :: ds, r)
        end
      else ([], s)
  | [] => ([], s)
  end.

(** The optional exponent: e or E, an optional sign, at least one digit. *)
Definition scan_exp (s : str) : str * str :=
  match s with
  | c :: s1 =>
      if N.eqb c (chr "e") || N.eqb c (chr "E") then
        let (sign, s2) :=
          match s1 with
          | d :: s' =>
              if N.eqb d (chr "-") || N.eqb d (chr "+") then ([d], s') else ([], s1)
          | [] => ([], s1)
          end in
        match take_digits s2 with
        | ([], _) => ([], s)
        | (ds, r) => (c :: sign ++ ds, r)
        end
      else ([], s)
  | [] => ([], s)
  end.

(** [int(digits)] refuses a literal of more than [int_max_str_digits]
    digits (and of more than 640) with a [ValueError]. *)
Definition too_many_digits {I : Interpreter} (ds : str) : bool :=
  let n := List.length ds in
  Nat.ltb 640 n && Nat.ltb 0 int_max_str_digits && Nat.ltb int_max_str_digits n.

(** A number at the head of [s], if any: an integer literal is converted
    by [int], which can raise; a literal with a fraction or an exponent
    by [float], which does not. *)
Definition scan_number {I : Interpreter} (s : str) : option (result JValue * str) :=
  match scan_integer s with
  | None => None
  | Some (neg, ds, r) =>
      let (frac, r1) := scan_frac r in
      let (ex, r2) := scan_exp r1 in
      match frac, ex with
      | [], [] =>
          if too_many_digits ds then Some (Raise ValueError, r2)
          else
            let v := digits_value ds in
            Some (Ok (JInt (if neg then (- v)%Z else v)), r2)
      | _, _ =>
          Some (Ok (JFloat ((if neg then [chr "-"] else []) ++ ds ++ frac ++ ex)), r2)
      end
  end.

Definition hex_digit (c : N) : option N :=
  if is_digit c then Some (c - 48)
  else if N.leb 97 c && N.leb c 102 then Some (c - 87)
  else if N.leb 65 c && N.leb c 70 then Some (c - 55)
  else None.

Definition hex4 (a b c d : N) : option N :=
  match hex_digit a, hex_digit b, hex_digit c, hex_digit d with
  | Some x, Some y, Some z, Some w => Some (((x * 16 + y) * 16 + z) * 16 + w)
  | _, _, _, _ => None
  end.

Definition simple_escape (e : N) : option N :=
  if N.eqb e DQUOTE then Some DQUOTE
  else if N.eqb e 92 then Some 92
  else if N.eqb e (chr "/") then Some (chr "/")
  else if N.eqb e (chr "b") then Some 8
  else if N.eqb e (chr "f") then Some 12
  else if N.eqb e (chr "n") then Some 10
  else if N.eqb e (chr "r") then Some 13
  else if N.eqb e (chr "t") then Some 9
  else None.

Definition is_high_surrogate (u : N) : bool := N.leb 55296 u && N.leb u 56319.
Definition is_low_surrogate (u : N) : bool := N.leb 56320 u && N.leb u 57343.

(** A low surrogate escape at the head of [s], if any. *)
Definition low_surrogate_escape (s : str) : option N :=
  match s with
  | 92 :: 117 :: g1 :: g2 :: g3 :: g4 :: _ =>
      match hex4 g1 g2 g3 g4 with
      | Some u2 => if is_low_surrogate u2 then Some u2 else None
      | None => None
      end
  | _ => None
  end%N.

(** [scanstring], strict mode: [s] starts right after the opening quote;
    the result is the decoded string and the text after the closing
    quote. *)
Fixpoint scanstring (s : str) (acc : str) : option (str * str) :=
  match s with
  | [] => None
  | c :: s1 =>
      if N.eqb c DQUOTE then Some (rev acc, s1)
      else if N.eqb c 92 then
        match s1 with
        | [] => None
        | e :: s2 =>
            if N.eqb e (chr "u") then
              match s2 with
              | h1 :: h2 :: h3 :: h4 :: s3 =>
                  match hex4 h1 h2 h3 h4 with
                  | None => None
                  | Some u =>
                      match (if is_high_surrogate u then low_surrogate_escape s3
                             else None), s3 with
                      | Some u2, _ :: _ :: _ :: _ :: _ :: _ :: s4 =>
                          scanstring s4
                            ((65536 + ((u - 55296) * 1024 + (u2 - 56320)))%N :: acc)
                      | _, _ => scanstring s3 (u :: acc)
                      end
                  end
              | _ => None
              end
            else
              match simple_escape e with
              | Some x => scanstring s2 (x :: acc)
              | None => None
              end
        end
      else if N.ltb c 32 then None
      else scanstring s1 (c :: acc)
  end.

(** [scan_once], [JSONObject] and [JSONArray].  [depth] is the number of
    containers that can still be entered: the scanner enters a recursion
    level at every opening brace and bracket, before it looks at what
    follows, and raises [RecursionError] when none is left.  [fuel] is
    what makes the definition structural: it bounds the number of nested
    calls and loop iterations; each of them consumes at least one
    character, and [json_loads] gives enough of it for the length of its
    input (see [scan_fuel]), so that [PFuel] is never its outcome.

    [object_members] is the loop of [JSONObject]: [s] starts at the
    opening quote of the next key.  [array_items] is the loop of
    [JSONArray]: [s] starts at the next value. *)
Fixpoint scan_once {I : Interpreter} (fuel depth : nat) (s : str) : pres JValue :=
  match fuel with
  | O => PFuel
  | S f =>
      match s with
      | [] => PErr
      | c :: s1 =>
          if N.eqb c DQUOTE then
            match scanstring s1 [] with
            | Some (v, r) => POk (JStr v) r
            | None => PErr
            end
          else if N.eqb c LBRACE then
            match depth with
            | O => PRaise RecursionError
            | S d =>
                match skip_ws s1 with
                | c' :: r =>
                    if N.eqb c' RBRACE then POk (JObj []) r
                    else object_members f d (c' :: r) []
                | [] => PErr
                end
            end
          else if N.eqb c (chr "[") then
            match depth with
            | O => PRaise RecursionError
            | S d =>
                match skip_ws s1 with
                | c' :: r =>
                    if N.eqb c' (chr "]") then POk (JArr []) r
                    else array_items f d (c' :: r) []
                | [] => PErr
                end
            end
          else
            match strip_prefix (py "null") s with
            | Some r => POk JNull r
            | None =>
            match strip_prefix (py "true") s with
            | Some r => POk (JBool true) r
            | None =>
            match strip_prefix (py "false") s with
            | Some r => POk (JBool false) r
            | None =>
            match scan_number s with
            | Some (Ok v, r) => POk v r
            | Some (Raise e, _) => PRaise e
            | None =>
            match strip_prefix (py "NaN") s with
            | Some r => POk (JFloat (py "NaN")) r
            | None =>
            match strip_prefix (py "Infinity") s with
            | Some r => POk (JFloat (py "Infinity")) r
            | None =>
            match strip_prefix (py "-Infinity") s with
            | Some r => POk (JFloat (py "-Infinity")) r
            | None => PErr
            end end end end end end end
      end
  end

with object_members {I : Interpreter} (fuel depth : nat) (s : str)
    (pairs : list (str * JValue)) : pres JValue :=
  match fuel with
  | O => PFuel
  | S f =>
      match s with
      | c :: s1 =>
          if N.eqb c DQUOTE then
            match scanstring s1 [] with
            | None => PErr
            | Some (key, s2) =>
                match skip_ws s2 with
                | c2 :: s3 =>
                    if N.eqb c2 (chr ":") then
                      match scan_once f depth (skip_ws s3) with
                      | POk v s4 =>
                          match skip_ws s4 with
                          | c3 :: s5 =>
                              if N.eqb c3 RBRACE then
                                POk (JObj (dict_of_pairs (rev ((key, v) :: pairs)))) s5
                              else if N.eqb c3 (chr ",") then
                                object_members f depth (skip_ws s5) ((key, v) :: pairs)
                              else PErr
                          | [] => PErr
                          end
                      | PErr => PErr
                      | PRaise e => PRaise e
                      | PFuel => PFuel
                      end
                    else PErr
                | [] => PErr
                end
            end
          else PErr
      | [] => PErr
      end
  end

with array_items {I : Interpreter} (fuel depth : nat) (s : str)
    (items : list JValue) : pres JValue :=
  match fuel with
  | O => PFuel
  | S f =>
      match scan_once f depth s with
      | POk v s1 =>
          match skip_ws s1 with
          | c :: s2 =>
              if N.eqb c (chr "]") then POk (JArr (rev (v :: items))) s2
              else if N.eqb c (chr ",") then
                array_items f depth (skip_ws s2) (v :: items)
              else PErr
          | [] => PErr
          end
      | PErr => PErr
      | PRaise e => PRaise e
      | PFuel => PFuel
      end
  end.

(** [json.loads(s)]: one value, surrounded by optional whitespace, and
    nothing else.  It raises [JSONDecodeError] on a syntax error,
    [RecursionError] when the value is nested deeper than the interpreter
    allows and [ValueError] when an integer literal has more digits than
    [int] converts.  The fuel given is enough for every input
    ([json_loads_fuel]). *)
Definition json_loads {I : Interpreter} (s : str) : result JValue :=
  match scan_once (S (2 * List.length s)) max_nesting (skip_ws s) with
  | POk v r =>
      match skip_ws r with
      | [] => Ok v
      | _ :: _ => Raise JSONDecodeError
      end
  | PErr => Raise JSONDecodeError
  | PRaise e => Raise e
  | PFuel => Raise OtherException
  end.

End Json.
Import Json.


(* ===================================================================== *)
(** * A state and exception monad *)
(* ===================================================================== *)

(** A computation on a mutable object of type [S] that returns an [A] or
    raises; mutations made before a [raise] persist. *)
Definition M (S A : Type) : Type := S -> result A * S.

Definition ret {S A} (a : A) : M S A := fun s => (Ok a, s).
Definition raise {S A} (e : exn) : M S A := fun s => (Raise e, s).
Definition bind {S A B} (c : M S A) (k : A -> M S B) : M S B :=
  fun s => match c s with
           | (Ok a, s') => k a s'
           | (Raise e, s') => (Raise e, s')
           end.
Definition get {S} : M S S := fun s => (Ok s, s).
Definition modify {S} (f : S -> S) : M S unit := fun s => (Ok tt, f s).
Definition lift_result {S A} (r : result A) : M S A := fun s => (r, s).

(** [try: body / except ...]: [handler e] is the clause that catches [e],
    [None] when no clause does. *)
Definition try_except {S A} (body : M S A) (handler : exn -> option (M S A))
  : M S A :=
  fun s => match body s with
           | (Ok a, s') => (Ok a, s')
           | (Raise e, s') =>
               match handler e with
               | Some h => h s'
               | None => (Raise e, s')
               end
           end.

Declare Scope monad_scope.
Delimit Scope monad_scope with monad.
Notation "x <- c ;; k" := (bind c (fun x => k))
  (at level 61, c at next level, right associativity) : monad_scope.
Notation "c ;; k" := (bind c (fun _ => k))
  (at level 61, right associativity) : monad_scope.
Local Open Scope monad_scope.

(** [for x in l: acc = body(acc, x)] *)
Fixpoint foldM {S A B} (body : B -> A -> M S B) (l : list A) (acc : B) : M S B :=
  match l with
  | [] => ret acc
  | x :: l' => acc' <- body acc x ;; foldM body l' acc'
  end.

(* ===================================================================== *)
(** * [JSON_PATTERN]: the regular expression of [data_processor.py] *)
(* ===================================================================== *)

(** A match object: [m.start()] and [m.end()]. *)
Record Match : Type := { m_start : nat; m_end : nat }.

(** [m.group()] for a match found in [s]. *)
Definition group (s : str) (m : Match) : str := slice (m_start m) (m_end m) s.

(** [JSON_PATTERN.finditer]: left to right, a match starts at the first
    opening brace at or after the end of the previous match and, the
    pattern being non-greedy with DOTALL, ends right after the first
    closing brace that follows; an opening brace with no closing brace
    after it matches nothing, and neither does any later position.
    [pos] is the index of the head of [s] in the searched text and
    [start] the index of the opening brace of the match in progress. *)
Fixpoint finditer_from (s : str) (pos : nat) (start : option nat) : list Match :=
  match s with
  | [] => []
  | c :: s' =>
      match start with
      | None =>
          if N.eqb c LBRACE then finditer_from s' (S pos) (Some pos)
          else finditer_from s' (S pos) None
      | Some i =>
          if N.eqb c RBRACE then
            {| m_start := i; m_end := S pos |} :: finditer_from s' (S pos) None
          else finditer_from s' (S pos) (Some i)
      end
  end.

Definition finditer (s : str) : list Match := finditer_from s 0 None.

(* ===================================================================== *)
(** * [DataProcessor] *)
(* ===================================================================== *)

Module DataProcessor.

Record state : Type := {
  buffer : str;
  total_received : nat;
  total_parsed : nat;
  total_invalid : nat
}.

(** [__init__] *)
Definition init : state :=
  {| buffer := []; total_received := 0; total_parsed := 0; total_invalid := 0 |}.

Definition set_buffer (b : str) (self : state) : state :=
  {| buffer := b; total_received := total_received self;
     total_parsed := total_parsed self; total_invalid := total_invalid self |}.
Definition incr_received (self : state) : state :=
  {| buffer := buffer self; total_received := total_received self + 1;
     total_parsed := total_parsed self; total_invalid := total_invalid self |}.
Definition incr_parsed (self : state) : state :=
  {| buffer := buffer self; total_received := total_received self;
     total_parsed := total_parsed self + 1; total_invalid := total_invalid self |}.
Definition incr_invalid (self : state) : state :=
  {| buffer := buffer self; total_received := total_received self;
     total_parsed := total_parsed self; total_invalid := total_invalid self + 1 |}.

(** [_parse_json]: the two [except] clauses turn [JSONDecodeError] and any
    other [Exception] ([RecursionError] and [ValueError] are what
    [json.loads] raises besides) into [None]. *)
Definition _parse_json {I : Interpreter} (text : str) : M state (option Dict) :=
  try_except
    (data <- lift_result (json_loads text) ;;
     match data with
     | JObj d =>
         match d with
         | [] => ret None
         | _ :: _ => ret (Some d)
         end
     | _ => ret None
     end)
    (fun e => match e with
              | JSONDecodeError => Some (ret None)
              | _ => if is_Exception e then Some (ret None) else None
              end).

(** The body of the [for match in matches] loop of [add_chunk]. *)
Definition add_chunk_body {I : Interpreter} (buf : str)
    (valid_objects : list Dict) (m : Match) : M state (list Dict) :=
  let candidate := group buf m in
  modify incr_received ;;
  parsed <- _parse_json candidate ;;
  match parsed with
  | Some d => modify incr_parsed ;; ret (valid_objects ++ [d])
  | None => modify incr_invalid ;; ret valid_objects
  end.

Definition add_chunk {I : Interpreter} (text : str) : M state (list Dict) :=
  modify (fun self => set_buffer (buffer self ++ text) self) ;;
  self <- get ;;
  let matches := finditer (buffer self) in
  match matches with
  | [] => ret []
  | m0 :: _ =>
      let end_of_last := m_end (last matches m0) in
      let remaining_buffer := slice_from end_of_last (buffer self) in
      valid_objects <- foldM (add_chunk_body (buffer self)) matches [] ;;
      modify (set_buffer remaining_buffer) ;;
      ret valid_objects
  end.

Definition clear_buffer : M state unit := modify (set_buffer []).

Record Stats : Type := {
  st_total_received : nat;
  st_total_parsed : nat;
  st_total_invalid : nat;
  st_parse_rate : Q;
  st_buffer_size : nat
}.

Definition Qnat (n : nat) : Q := inject_Z (Z.of_nat n).

Definition get_stats : M state Stats :=
  self <- get ;;
  ret {| st_total_received := total_received self;
         st_total_parsed := total_parsed self;
         st_total_invalid := total_invalid self;
         st_parse_rate :=
           if 0 <? total_received self
           then (Qnat (total_parsed self) / Qnat (total_received self) * 100)%Q
           else 0%Q;
         st_buffer_size := List.length (buffer self) |}.

(** Feeding a sequence of chunks, one [add_chunk] call each, and
    collecting what the calls return. *)
Fixpoint feed {I : Interpreter} (chunks : list str) : M state (list Dict) :=
  match chunks with
  | [] => ret []
  | c :: cs => r <- add_chunk c ;; rs <- feed cs ;; ret (r ++ rs)
  end.

End DataProcessor.

(* ===================================================================== *)
(** * [validate_telemetry] *)
(* ===================================================================== *)

Module Telemetry.

Definition expected_fields : list str :=
  map py ["moisture"; "temp"; "humidity"; "pump"; "zone1";
          "zone2"; "light"; "water"; "mode"; "cycles"; "uptime"]%string.

(** [expected_fields & set(data.keys())] has the expected fields that
    are keys of [data]; the expected fields are pairwise distinct, so its
    size is their number. *)
Definition validate_telemetry (data : Dict) : bool :=
  let present_fields := map fst data in
  let common_fields :=
    filter (fun f => existsb (str_eqb f) present_fields) expected_fields in
  3 <=? List.length common_fields.

End Telemetry.

(* ===================================================================== *)
(** * The outside world: clock and effects *)
(* ===================================================================== *)

Inductive event : Type :=
| EvTime                 (* [time.time()] *)
| EvSleep (secs : Q)     (* [time.sleep(secs)] *)
| EvPrint                (* [print(...)] *)
| EvPost (data : Dict)   (* [requests.post(..., json=data, ...)] *)
| EvCleanup.             (* the [finally] clause of [run_bridge] *)

(** [clock] is the current time in seconds since the epoch; [trace]
    lists the calls made to the outside so far, oldest first. *)
Record World : Type := { clock : Q; trace : list event }.

Definition emit (e : event) (w : World) : World :=
  {| clock := clock w; trace := trace w ++ [e] |}.

(** [time.time()] *)
Definition time_time (w : World) : Q * World := (clock w, emit EvTime w).

(** [time.sleep(secs)]: the clock advances by [secs] and by [lag], the
    time by which the scheduler overshoots. *)
Definition time_sleep (secs lag : Q) (w : World) : World :=
  {| clock := (clock w + secs + lag)%Q; trace := trace w ++ [EvSleep secs] |}.

(** Time passing while the caller does something else. *)
Definition advance (d : Q) (w : World) : World :=
  {| clock := (clock w + d)%Q; trace := trace w |}.

(* ===================================================================== *)
(** * [RateLimiter] *)
(* ===================================================================== *)

Module RateLimiter.

Record state : Type := { min_interval : Q; last_send_time : Q }.

(** [__init__] *)
Definition init (max_hz : Q) : state :=
  {| min_interval := (1 / max_hz)%Q; last_send_time := 0%Q |}.

Definition Qpositive (q : Q) : bool := negb (Qle_bool q 0).

Definition wait_if_needed (lag : Q) (self : state) (w : World) : state * World :=
  let (now, w) := time_time w in
  let elapsed := (now - last_send_time self)%Q in
  let wait_time := (min_interval self - elapsed)%Q in
  let w := if Qpositive wait_time then time_sleep wait_time lag w else w in
  let (t, w) := time_time w in
  ({| min_interval := min_interval self; last_send_time := t |}, w).

End RateLimiter.

(* ===================================================================== *)
(** * [ThingsBoardClient] *)
(* ===================================================================== *)

Module ThingsBoardClient.

(** What [requests.post] returns. *)
Record Response : Type := { status_code : nat; text : str }.

(** [Response.ok] of the requests library: true unless
    [raise_for_status()] raises, which it does exactly for
    [400 <= status_code < 600]. *)
Definition ok (r : Response) : bool :=
  negb ((400 <=? status_code r) && (status_code r <? 600)).

(** A 2xx status. *)
Definition is_2xx (r : Response) : bool :=
  (200 <=? status_code r) && (status_code r <? 300).

Record state : Type := {
  total_sent : nat;
  total_failed : nat;
  last_send_time : option Q
}.

(** [__init__] *)
Definition init : state :=
  {| total_sent := 0; total_failed := 0; last_send_time := None |}.

Definition set_last_send_time (t : option Q) (self : state) : state :=
  {| total_sent := total_sent self; total_failed := total_failed self;
     last_send_time := t |}.
Definition incr_sent (self : state) : state :=
  {| total_sent := total_sent self + 1; total_failed := total_failed self;
     last_send_time := last_send_time self |}.
Definition incr_failed (self : state) : state :=
  {| total_sent := total_sent self; total_failed := total_failed self + 1;
     last_send_time := last_send_time self |}.

(** [send_telemetry(data, timeout)].  [post] is the outcome of
    [requests.post(self.telemetry_url, json=data, timeout=timeout)] and
    [now] what [datetime.now()] returns when it is reached. *)
Definition send_telemetry (data : Dict) (timeout : nat)
  (post : result Response) (now : Q) : M state bool :=
  try_except
    (response <- lift_result post ;;
     modify (set_last_send_time (Some now)) ;;
     if ok response then
       modify incr_sent ;; ret true
     else
       modify incr_failed ;; ret false)
    (fun e => match e with
              | Timeout => Some (modify incr_failed ;; ret false)
              | ConnectionError => Some (modify incr_failed ;; ret false)
              | _ => if is_Exception e
                     then Some (modify incr_failed ;; ret false)
                     else None
              end).

Record Stats : Type := {
  st_total_sent : nat;
  st_total_failed : nat;
  st_success_rate : Q;
  st_last_send_time : option Q
}.

Definition Qnat (n : nat) : Q := inject_Z (Z.of_nat n).

Definition get_stats : M state Stats :=
  self <- get ;;
  ret {| st_total_sent := total_sent self;
         st_total_failed := total_failed self;
         st_success_rate :=
           if 0 <? total_sent self + total_failed self
           then (Qnat (total_sent self)
                 / Qnat (total_sent self + total_failed self) * 100)%Q
           else 0%Q;
         st_last_send_time := last_send_time self |}.

(** [test_connection]: [post] and [now] as for [send_telemetry]. *)
Definition test_data : Dict := [(py "test", JStr (py "connection"))].

Definition test_connection (post : result Response) (now : Q) : M state bool :=
  result <- send_telemetry test_data 8 post now ;;
  ret result.

End ThingsBoardClient.

(* ===================================================================== *)
(** * [TinkerCADAutomation.read_serial_output] and [SerialMonitor] *)
(* ===================================================================== *)

Module TinkerCADAutomation.

(** [text.replace(CR LF, LF)] then [.replace(CR, LF)] *)
Fixpoint replace_crlf (s : str) : str :=
  match s with
  | 13%N :: (10%N :: _) as r => replace_crlf r
  | c :: r => c :: replace_crlf r
  | [] => []
  end.

Definition replace_cr (s : str) : str :=
  map (fun c => if N.eqb c 13 then 10%N else c) s.

(** [read_serial_output]: [inner_text] is the outcome of
    [self.serial_locator.inner_text()]; the locator is set once the
    simulation is set up, which is the case in the streaming loop. *)
Definition read_serial_output (inner_text : result str) : M unit (option str) :=
  try_except
    (text <- lift_result inner_text ;;
     ret (Some (replace_cr (replace_crlf text))))
    (fun e => if is_Exception e then Some (ret None) else None).

End TinkerCADAutomation.

Module SerialMonitor.

Record state : Type := { last_text_length : nat; total_reads : nat }.

(** [__init__] *)
Definition init : state := {| last_text_length := 0; total_reads := 0 |}.

(** [get_new_content]; [full_text] is what [read_serial_output] returned. *)
Definition get_new_content (full_text : option str) : M state str :=
  match full_text with
  | None => ret []
  | Some full_text =>
      modify (fun self => {| last_text_length := last_text_length self;
                             total_reads := total_reads self + 1 |}) ;;
      let current_length := List.length full_text in
      self <- get ;;
      (if current_length <? last_text_length self
       then modify (fun self => {| last_text_length := 0;
                                   total_reads := total_reads self |})
       else ret tt) ;;
      self <- get ;;
      let new_content := slice_from (last_text_length self) full_text in
      modify (fun self => {| last_text_length := current_length;
                             total_reads := total_reads self |}) ;;
      ret new_content
  end.

(** [reset] *)
Definition reset : M state unit :=
  modify (fun self => {| last_text_length := 0; total_reads := total_reads self |}).

(** A sequence of calls of [get_new_content], one per outcome of
    [read_serial_output], and the contents they return, joined. *)
Fixpoint poll_texts (reads : list (option str)) : M state str :=
  match reads with
  | [] => ret []
  | r :: rest =>
      new_content <- get_new_content r ;;
      more <- poll_texts rest ;;
      ret (new_content ++ more)
  end.

End SerialMonitor.

(* ===================================================================== *)
(** * The streaming loop of [run_bridge] *)
(* ===================================================================== *)

Module Bridge.

(** The settings read by the loop ([config/settings.py]). *)
Record Settings : Type := {
  MAX_SEND_HZ : Q;
  POLL_SEC : Q;
  PRINT_PREVIEW : bool
}.

(** The local variables of [run_bridge] that the loop uses, and the
    world. *)
Record state : Type := {
  serial_monitor : SerialMonitor.state;
  data_processor : DataProcessor.state;
  rate_limiter : RateLimiter.state;
  tb_client : ThingsBoardClient.state;
  message_count : nat;
  world : World
}.

(** The state on entry of the loop. *)
Definition init (cfg : Settings) (tb : ThingsBoardClient.state) (w : World) : state :=
  {| serial_monitor := SerialMonitor.init;
     data_processor := DataProcessor.init;
     rate_limiter := RateLimiter.init (MAX_SEND_HZ cfg);
     tb_client := tb;
     message_count := 0;
     world := w |}.

Definition set_serial_monitor (x : SerialMonitor.state) (b : state) : state :=
  {| serial_monitor := x; data_processor := data_processor b;
     rate_limiter := rate_limiter b; tb_client := tb_client b;
     message_count := message_count b; world := world b |}.
Definition set_data_processor (x : DataProcessor.state) (b : state) : state :=
  {| serial_monitor := serial_monitor b; data_processor := x;
     rate_limiter := rate_limiter b; tb_client := tb_client b;
     message_count := message_count b; world := world b |}.
Definition set_rate_limiter (x : RateLimiter.state) (b : state) : state :=
  {| serial_monitor := serial_monitor b; data_processor := data_processor b;
     rate_limiter := x; tb_client := tb_client b;
     message_count := message_count b; world := world b |}.
Definition set_tb_client (x : ThingsBoardClient.state) (b : state) : state :=
  {| serial_monitor := serial_monitor b; data_processor := data_processor b;
     rate_limiter := rate_limiter b; tb_client := x;
     message_count := message_count b; world := world b |}.
Definition set_world (x : World) (b : state) : state :=
  {| serial_monitor := serial_monitor b; data_processor := data_processor b;
     rate_limiter := rate_limiter b; tb_client := tb_client b;
     message_count := message_count b; world := x |}.
Definition incr_message_count (b : state) : state :=
  {| serial_monitor := serial_monitor b; data_processor := data_processor b;
     rate_limiter := rate_limiter b; tb_client := tb_client b;
     message_count := message_count b + 1; world := world b |}.

(** Running a method of one of the objects. *)
Definition on {T A} (proj : state -> T) (set : T -> state -> state) (c : M T A)
  : M state A :=
  fun b => let (r, x) := c (proj b) in (r, set x b).

(** What the world answers during the delivery of one record. *)
Record SendEnv : Type := {
  lag : Q;                                    (* overshoot of the limiter's sleep *)
  preview_print : result unit;                (* outcome of the preview [print] *)
  latency : Q;                                (* duration of the request *)
  post : result ThingsBoardClient.Response;   (* outcome of [requests.post] *)
  status_print : result unit                  (* outcome of the result [print] *)
}.

(** What the world answers during one iteration of the loop: the text in
    the serial widget, the answers for the records sent (by rank), and
    the outcome of [time.sleep(settings.POLL_SEC)]; and, should the loop
    be left in this iteration, the outcome of the statistics that the
    [KeyboardInterrupt] handler prints and the outcome of the calls of
    the [finally] clause and of leaving the [with] block. *)
Record TickEnv : Type := {
  inner_text : result str;
  sends : nat -> SendEnv;
  poll : result unit;
  stats_print : result unit;
  closing : result unit
}.

(** [print(...)] *)
Definition print (outcome : result unit) : M state unit :=
  modify (fun b => set_world (emit EvPrint (world b)) b) ;;
  lift_result outcome.

(** [rate_limiter.wait_if_needed()] *)
Definition call_wait_if_needed (lag : Q) : M state unit :=
  modify (fun b =>
            let (rl, w) := RateLimiter.wait_if_needed lag (rate_limiter b) (world b) in
            set_world w (set_rate_limiter rl b)).

(** [tb_client.send_telemetry(data)], with the default timeout. *)
Definition call_send_telemetry (data : Dict) (env : SendEnv) : M state bool :=
  modify (fun b => set_world (advance (latency env) (emit (EvPost data) (world b))) b) ;;
  b <- get ;;
  on tb_client set_tb_client
     (ThingsBoardClient.send_telemetry data 8 (post env) (clock (world b))).

(** The body of [for data in json_objects]. *)
Definition deliver (cfg : Settings) (env : SendEnv) (data : Dict) : M state unit :=
  call_wait_if_needed (lag env) ;;
  (if PRINT_PREVIEW cfg then print (preview_print env) else ret tt) ;;
  success <- call_send_telemetry data env ;;
  if success then
    modify incr_message_count ;;
    print (status_print env)
  else
    print (status_print env).

Fixpoint deliver_all (cfg : Settings) (sends : nat -> SendEnv) (i : nat)
  (json_objects : list Dict) : M state unit :=
  match json_objects with
  | [] => ret tt
  | data :: rest =>
      deliver cfg (sends i) data ;; deliver_all cfg sends (S i) rest
  end.

(** [time.sleep(settings.POLL_SEC)] *)
Definition poll_sleep (cfg : Settings) (outcome : result unit) : M state unit :=
  modify (fun b => set_world (time_sleep (POLL_SEC cfg) 0 (world b)) b) ;;
  lift_result outcome.

(** One iteration of [while True]. *)
Definition tick {I : Interpreter} (cfg : Settings) (env : TickEnv) : M state unit :=
  full_text <- on (fun _ => tt) (fun _ b => b)
                 (TinkerCADAutomation.read_serial_output (inner_text env)) ;;
  new_content <- on serial_monitor set_serial_monitor
                   (SerialMonitor.get_new_content full_text) ;;
  (match new_content with
   | [] => ret tt
   | _ :: _ =>
       json_objects <- on data_processor set_data_processor
                         (DataProcessor.add_chunk new_content) ;;
       deliver_all cfg (sends env) 0 json_objects
   end) ;;
  poll_sleep cfg (poll env).

(** The loop, run against the answers of the world for its first
    iterations: [Ok tt] when the loop is still running after them. *)
Fixpoint streaming_loop {I : Interpreter} (cfg : Settings) (envs : list TickEnv)
  : M state unit :=
  match envs with
  | [] => ret tt
  | env :: rest => tick cfg env ;; streaming_loop cfg rest
  end.

Inductive status : Type :=
| STREAMING                  (* still inside [while True] *)
| STOPPED                    (* left through [except KeyboardInterrupt] *)
| FAILED (e : exn)           (* left through [except Exception] *)
| RAISED (e : exn).          (* left with an exception that a handler or the
                                [finally] clause raised *)

(** The [finally] clause: [automation.stop_simulation()], which catches
    the [Exception]s it raises, then [context.close()] and
    [browser.close()], which catch nothing. *)
Definition cleanup (outcome : result unit) : M state unit :=
  modify (fun b => set_world (emit EvCleanup (world b)) b) ;;
  lift_result outcome.

(** What follows an exception [e] of the loop: the clause that catches it
    ([except Exception] logs; [except KeyboardInterrupt] logs and prints
    the statistics), then the [finally] clause.  An exception of the
    [finally] clause leaves the statement; otherwise an exception of the
    handler does; otherwise the statement is left normally. *)
Definition leave (env : TickEnv) (e : exn) (b : state) : status * state :=
  if is_Exception e then
    match cleanup (closing env) b with
    | (Ok _, b') => (FAILED e, b')
    | (Raise e', b') => (RAISED e', b')
    end
  else
    let (handled, b1) := print (stats_print env) b in
    match cleanup (closing env) b1, handled with
    | (Raise e', b'), _ => (RAISED e', b')
    | (Ok _, b'), Raise e1 => (RAISED e1, b')
    | (Ok _, b'), Ok _ => (STOPPED, b')
    end.

(** The [try] statement around the loop, run against the answers of the
    world for the first iterations: the loop runs until an iteration
    raises, and is then left as the answers of that iteration have it. *)
Fixpoint run_streaming {I : Interpreter} (cfg : Settings) (envs : list TickEnv)
  (b : state) : status * state :=
  match envs with
  | [] => (STREAMING, b)
  | env :: rest =>
      match tick cfg env b with
      | (Ok _, b') => run_streaming cfg rest b'
      | (Raise e, b') => leave env e b'
      end
  end.

End Bridge.

(* ===================================================================== *)
(** * [config/settings.py]: [validate_config] *)
(* ===================================================================== *)

Module Config.

(** The settings that [validate_config] and the bridge read.  The two
    rates are [float(os.getenv(...))]: the text of an environment
    variable converts to a finite float, to an infinity or to nan. *)
Record t : Type := {
  TB_TOKEN : str;
  TINKERCAD_CLASS_CODE : str;
  TINKERCAD_LOGIN_CODE : str;
  MAX_SEND_HZ : pyfloat;
  POLL_SEC : pyfloat;
  PRINT_PREVIEW : bool
}.

(** [not value or value == placeholder] *)
Definition unset (value placeholder : str) : bool :=
  match value with
  | [] => true
  | _ :: _ => str_eqb value placeholder
  end.

Definition validate_config (c : t) : list string :=
  (if unset (TB_TOKEN c) (py "YOUR_TOKEN_HERE")
   then ["ThingsBoard token not configured"%string] else [])
  ++ (if unset (TINKERCAD_CLASS_CODE c) (py "YOUR_CLASS_CODE")
      then ["TinkerCAD class code not configured"%string] else [])
  ++ (if unset (TINKERCAD_LOGIN_CODE c) (py "YOUR_LOGIN_CODE")
      then ["TinkerCAD login code not configured"%string] else [])
  ++ (if float_le_zero (MAX_SEND_HZ c)
      then ["MAX_SEND_HZ must be positive"%string] else [])
  ++ (if float_le_zero (POLL_SEC c)
      then ["POLL_SEC must be positive"%string] else []).

(** The settings as the loop reads them.  A rate that passes
    [validate_config] is positive, [inf] or nan.

    - [MAX_SEND_HZ]: the loop reads it through
      [min_interval = 1.0 / max_hz] only.  [1.0 / inf] is [0.0], which is
      also what [RateLimiter.init] computes for the rate [0].  [1.0 / nan]
      is nan, with which [wait_time > 0] is false and the limiter never
      sleeps; with [min_interval = 0] it never sleeps either, as long as
      the clock does not read less than at the limiter's last reading.
    - [POLL_SEC]: [time.sleep] refuses [inf] and nan before it sleeps
      ([sleep_refusal], [ticks]); no time passes. *)
Definition finite_part (x : pyfloat) : Q :=
  match x with
  | Fin q => q
  | _ => 0%Q
  end.

Definition loop (c : t) : Bridge.Settings :=
  {| Bridge.MAX_SEND_HZ := finite_part (MAX_SEND_HZ c);
     Bridge.POLL_SEC := finite_part (POLL_SEC c);
     Bridge.PRINT_PREVIEW := PRINT_PREVIEW c |}.

(** [time.sleep(secs)] raises [OverflowError] for an infinity and
    [ValueError] for nan. *)
Definition sleep_refusal (secs : pyfloat) : option exn :=
  match secs with
  | Fin _ => None
  | NaN => Some ValueError
  | _ => Some OtherException
  end.

(** The answers of the world to the iterations of the loop, for the
    [POLL_SEC] of [c]. *)
Definition ticks (c : t) (envs : list Bridge.TickEnv) : list Bridge.TickEnv :=
  match sleep_refusal (POLL_SEC c) with
  | None => envs
  | Some e =>
      map (fun env => {| Bridge.inner_text := Bridge.inner_text env;
                         Bridge.sends := Bridge.sends env;
                         Bridge.poll := Raise e;
                         Bridge.stats_print := Bridge.stats_print env;
                         Bridge.closing := Bridge.closing env |}) envs
  end.

End Config.

(* ===================================================================== *)
(** * [run_bridge] from its start, and [main] *)
(* ===================================================================== *)

Module Main.
Import Bridge.

(** What the world answers before the loop: the outcome of
    [settings.print_config_summary()], the request of
    [test_connection], the start of Playwright and of the browser,
    what [navigate_and_login] and [setup_simulation] return (both catch
    their exceptions and return a boolean), the outcome of the
    [browser.close()] that follows when one of them returns [False], and
    the opening of the dashboard tab. *)
Record StartEnv : Type := {
  summary : result unit;
  probe : result ThingsBoardClient.Response;
  probe_latency : Q;
  launch : result unit;
  login : bool;
  setup : bool;
  close_browser : result unit;
  dashboard : result unit
}.

Inductive outcome : Type :=
| Returned (success : bool)   (* [run_bridge] returned *)
| Running                     (* still inside [while True] *)
| Raised (e : exn).           (* an exception left [run_bridge] *)

(** [tb_client.test_connection()] *)
Definition call_test_connection (se : StartEnv) : M state bool :=
  modify (fun b =>
            set_world (advance (probe_latency se)
                         (emit (EvPost ThingsBoardClient.test_data) (world b))) b) ;;
  b <- get ;;
  on tb_client set_tb_client
     (ThingsBoardClient.test_connection (probe se) (clock (world b))).

(** [browser.close(); return False] *)
Definition bail_out (se : StartEnv) (b : state) : outcome * state :=
  match close_browser se with
  | Ok _ => (Returned false, b)
  | Raise e => (Raised e, b)
  end.

(** [run_bridge], run against the answers of the world for the start and
    for the first iterations of the loop.  The components are created
    once the configuration is valid; [b0] holds them as created. *)
Definition run_bridge {I : Interpreter} (c : Config.t) (se : StartEnv)
  (ticks : list TickEnv) (w : World) : outcome * state :=
  let b0 := init (Config.loop c) ThingsBoardClient.init w in
  match summary se with
  | Raise e => (Raised e, b0)
  | Ok _ =>
  match Config.validate_config c with
  | _ :: _ => (Returned false, b0)
  | [] =>
  match call_test_connection se b0 with
  | (Raise e, b1) => (Raised e, b1)
  | (Ok false, b1) => (Returned false, b1)
  | (Ok true, b1) =>
  match launch se with
  | Raise e => (Raised e, b1)
  | Ok _ =>
      if negb (login se) then bail_out se b1
      else if negb (setup se) then bail_out se b1
      else
        match dashboard se with
        | Raise e => (Raised e, b1)
        | Ok _ =>
            match run_streaming (Config.loop c) (Config.ticks c ticks) b1 with
            | (STREAMING, b2) => (Running, b2)
            | (RAISED e, b2) => (Raised e, b2)
            | (_, b2) => (Returned true, b2)
            end
        end
  end end end end.

Inductive process_end : Type :=
| Exit (code : nat)      (* [sys.exit(code)] *)
| Uncaught (e : exn)     (* not an [Exception]: it leaves [main] *)
| StillRunning.

(** [main], after [setup_logging()]. *)
Definition main {I : Interpreter} (c : Config.t) (se : StartEnv)
  (ticks : list TickEnv) (w : World) : process_end * state :=
  match run_bridge c se ticks w with
  | (Returned success, b) => (Exit (if success then 0 else 1), b)
  | (Raised e, b) => if is_Exception e then (Exit 1, b) else (Uncaught e, b)
  | (Running, b) => (StillRunning, b)
  end.

End Main.

(* ===================================================================== *)
(** * Notions used to state the properties *)
(* ===================================================================== *)

(** The candidate spans of a text and what is left after the last one. *)
Definition candidates (y : str) : list str := map (group y) (finditer y).

Definition remainder (y : str) : str :=
  match finditer y with
  | [] => y
  | m0 :: ms => slice_from (m_end (last (m0 :: ms) m0)) y
  end.

(** A candidate is accepted when it decodes to an object with a key. *)
Definition accepted {I : Interpreter} (c : str) : option Dict :=
  match json_loads c with
  | Ok (JObj (kv :: d)) => Some (kv :: d)
  | _ => None
  end.

Definition is_accepted {I : Interpreter} (c : str) : bool :=
  match accepted c with Some _ => true | None => false end.

Definition records_of {I : Interpreter} (cands : list str) : list Dict :=
  flat_map (fun c => match accepted c with Some d => [d] | None => [] end) cands.

Definition count_rejected {I : Interpreter} (cands : list str) : nat :=
  List.length (filter (fun c => negb (is_accepted c)) cands).

(** The scan of [JSON_PATTERN] seen as a machine that reads one character
    at a time: [junk] is the text read since the end of the last span and
    before the opening brace of the span in progress, [cur] that span so
    far.  It returns the spans completed and the text left pending. *)
Definition cur_text (cur : option str) : str :=
  match cur with Some b => b | None => [] end.

Fixpoint spans (junk : str) (cur : option str) (s : str) : list str * str :=
  match s with
  | [] => ([], junk ++ cur_text cur)
  | c :: s' =>
      match cur with
      | None =>
          if N.eqb c LBRACE then spans junk (Some [c]) s'
          else spans (junk ++ [c]) None s'
      | Some b =>
          if N.eqb c RBRACE then
            let (l, r) := spans [] None s' in ((b ++ [c]) :: l, r)
          else spans junk (Some (b ++ [c])) s'
      end
  end.

Definition no_lbrace (s : str) : Prop := Forall (fun c => N.eqb c LBRACE = false) s.
Definition no_rbrace (s : str) : Prop := Forall (fun c => N.eqb c RBRACE = false) s.
Definition no_brace (s : str) : Prop := no_lbrace s /\ no_rbrace s.

(** The states the machine can be in. *)
Definition wf_scan (junk : str) (cur : option str) : Prop :=
  no_lbrace junk /\
  match cur with
  | None => True
  | Some b => exists b', b = LBRACE :: b' /\ no_rbrace b'
  end.

(** An opening brace, a body without closing brace, a closing brace. *)
Definition span_shape (c : str) : Prop :=
  exists body, c = LBRACE :: body ++ [RBRACE] /\ no_rbrace body.

(** A text in which an opening brace is followed, somewhere, by a
    closing brace. *)
Definition has_span (s : str) : Prop :=
  exists a b c, s = a ++ LBRACE :: b ++ RBRACE :: c.

(** A text cut into pieces, each of them some text without opening brace
    followed by a span, and a rest in which no span is left. *)
Definition cut_into (pieces : list (str * str)) (rest : str) (y : str) : Prop :=
  y = flat_map (fun p => fst p ++ snd p) pieces ++ rest /\
  Forall (fun p => no_lbrace (fst p) /\ span_shape (snd p)) pieces /\
  ~ has_span rest.

(** A JSON text that [json.loads] decodes to an object with at least one
    key. *)
Definition valid_object {I : Interpreter} (o : str) : Prop :=
  exists kv d, json_loads o = Ok (JObj (kv :: d)).

(** The text [sep0 o1 sep1 ... oN sepN]. *)
Definition stream (sep0 : str) (items : list (str * str)) : str :=
  sep0 ++ flat_map (fun it => fst it ++ snd it) items.

(** The counters after [cands] have been evaluated. *)
Definition counted {I : Interpreter} (cands : list str) (b : str)
    (self : DataProcessor.state) : DataProcessor.state :=
  {| DataProcessor.buffer := b;
     DataProcessor.total_received :=
       DataProcessor.total_received self + List.length cands;
     DataProcessor.total_parsed :=
       DataProcessor.total_parsed self + List.length (records_of cands);
     DataProcessor.total_invalid :=
       DataProcessor.total_invalid self + count_rejected cands |}.

(** A request whose outcome makes [send_telemetry] return [True]. *)
Definition post_succeeds (p : result ThingsBoardClient.Response) : bool :=
  match p with
  | Ok r => ThingsBoardClient.ok r
  | Raise _ => false
  end.




Definition is_post (e : event) : bool :=
  match e with
  | EvPost _ => true
  | _ => false
  end.

Definition is_sleep (e : event) : bool :=
  match e with
  | EvSleep _ => true
  | _ => false
  end.


(** The time that the calls of [time.sleep] of a trace ask for. *)
Definition sleep_total (tr : list event) : Q :=
  fold_right (fun e acc => match e with
                           | EvSleep secs => (secs + acc)%Q
                           | _ => acc
                           end) 0%Q tr.


(** Successive readings of a text that only grows since it read [prev];
    [None] is a failed reading. *)
Fixpoint growing_from (prev : str) (reads : list (option str)) : Prop :=
  match reads with
  | [] => True
  | None :: rest => growing_from prev rest
  | Some t :: rest => (exists d, t = prev ++ d) /\ growing_from t rest
  end.

(** The last text read. *)
Fixpoint last_seen (prev : str) (reads : list (option str)) : str :=
  match reads with
  | [] => prev
  | None :: rest => last_seen prev rest
  | Some t :: rest => last_seen t rest
  end.

(** The text that a tick hands to the extractor, and the records the
    extractor returns for it. *)
Definition normalized (text : str) : str :=
  TinkerCADAutomation.replace_cr (TinkerCADAutomation.replace_crlf text).

Definition new_content_of (env : Bridge.TickEnv) (b : Bridge.state) : str :=
  match Bridge.inner_text env with
  | Ok text =>
      let full := normalized text in
      let seen := SerialMonitor.last_text_length (Bridge.serial_monitor b) in
      slice_from (if List.length full <? seen then 0 else seen) full
  | Raise _ => []
  end.

Definition tick_records {I : Interpreter} (env : Bridge.TickEnv) (b : Bridge.state)
  : list Dict :=
  match new_content_of env b with
  | [] => []
  | c :: rest =>
      records_of
        (candidates (DataProcessor.buffer (Bridge.data_processor b) ++ c :: rest))
  end.

(** The records posted, in a trace. *)
Definition posted (tr : list event) : list Dict :=
  flat_map (fun e => match e with EvPost d => [d] | _ => [] end) tr.

Definition is_cleanup (e : event) : bool :=
  match e with
  | EvCleanup => true
  | _ => false
  end.

(** Looking a key up in a dictionary. *)
Fixpoint dict_get (k : str) (d : Dict) : option JValue :=
  match d with
  | [] => None
  | (k', v) :: d' => if str_eqb k k' then Some v else dict_get k d'
  end.

(** The keys of a decoded object are pairwise distinct. *)
Definition distinct_keys (v : JValue) : Prop :=
  match v with
  | JObj d => NoDup (map fst d)
  | _ => True
  end.

(** The code point of a carriage return does not occur. *)
Definition no_cr (s : str) : Prop := Forall (fun c => N.eqb c 13 = false) s.

(** The start of [run_bridge] reaches the loop. *)
Definition startup_ok (c : Config.t) (se : Main.StartEnv) : bool :=
  match Main.summary se, Config.validate_config c, Main.launch se, Main.dashboard se with
  | Ok _, [], Ok _, Ok _ =>
      post_succeeds (Main.probe se) && Main.login se && Main.setup se
  | _, _, _, _ => false
  end.

(** A sample interpreter, sample settings, states and answers of the
    world, for the runs evaluated below. *)
Module Sample.
Import Bridge.

(** Limits of the order of CPython's defaults: a recursion limit of 1000,
    of which the call of [json.loads] finds some used, and 4300 digits;
    and the same without a limit on the digits. *)
Definition python : Interpreter :=
  {| max_nesting := 990; int_max_str_digits := 4300 |}.

Definition python_unlimited_digits : Interpreter :=
  {| max_nesting := 990; int_max_str_digits := 0 |}.

Definition cfg : Settings :=
  {| MAX_SEND_HZ := 5; POLL_SEC := 3 # 10; PRINT_PREVIEW := true |}.

Definition w0 : World := {| clock := 1800000000; trace := [] |}.

Definition b0 : state := init cfg ThingsBoardClient.init w0.

Definition response (code : nat) : ThingsBoardClient.Response :=
  {| ThingsBoardClient.status_code := code; ThingsBoardClient.text := [] |}.

(** A delivery answered with the given status code. *)
Definition answered (code : nat) : SendEnv :=
  {| lag := 0; preview_print := Ok tt; latency := 1 # 10;
     post := Ok (response code); status_print := Ok tt |}.

(** A delivery whose preview [print] raises (an encoding error of the
    console, a closed output stream). *)
Definition print_raises : SendEnv :=
  {| lag := 0; preview_print := Raise OtherException; latency := 1 # 10;
     post := Ok (response 200); status_print := Ok tt |}.

(** A tick that finds [text] in the serial widget. *)
Definition shows (text : str) (se : SendEnv) : TickEnv :=
  {| inner_text := Ok text; sends := fun _ => se; poll := Ok tt;
     stats_print := Ok tt; closing := Ok tt |}.

(** A valid configuration, and answers of the world for a start in
    which the probe is answered with the given status code. *)
Definition config : Config.t :=
  {| Config.TB_TOKEN := py "device-token";
     Config.TINKERCAD_CLASS_CODE := py "CLASS1234";
     Config.TINKERCAD_LOGIN_CODE := py "student";
     Config.MAX_SEND_HZ := Fin 5;
     Config.POLL_SEC := Fin (3 # 10);
     Config.PRINT_PREVIEW := true |}.

Definition start (code : nat) : Main.StartEnv :=
  {| Main.summary := Ok tt; Main.probe := Ok (response code);
     Main.probe_latency := 1 # 10; Main.launch := Ok tt;
     Main.login := true; Main.setup := true; Main.close_browser := Ok tt;
     Main.dashboard := Ok tt |}.

End Sample.

(* ===================================================================== *)
(** * The decoder has enough fuel; what it raises *)
(* ===================================================================== *)

Section Fuel.
Context {interp : Interpreter}.
Local Open Scope nat_scope.

Lemma skip_ws_length (s : str) : List.length (skip_ws s) <= List.length s.
Proof.
  induction s as [|c s IH]; simpl; [lia|].
  destruct (is_ws c); simpl; lia.
Qed.

Lemma strip_prefix_length (p : str) : forall s r,
  strip_prefix p s = Some r -> List.length r + List.length p = List.length s.
Proof.
  induction p as [|x p IH]; intros s r H; simpl in H.
  - inversion H. simpl. lia.
  - destruct s as [|y s]; [discriminate|].
    destruct (N.eqb x y); [|discriminate].
    apply IH in H. simpl. lia.
Qed.

Lemma take_digits_length (s : str) :
  List.length (snd (take_digits s)) <= List.length s.
Proof.
  induction s as [|c s IH]; simpl; [lia|].
  destruct (is_digit c); [|simpl; lia].
  destruct (take_digits s) as [ds r]. simpl in *. lia.
Qed.

Lemma scan_integer_shorter (s : str) (neg : bool) (ds r : str) :
  scan_integer s = Some (neg, ds, r) -> List.length r < List.length s.
Proof.
  unfold scan_integer.
  assert (Hd : forall (n : bool) s1,
             List.length s1 <= List.length s ->
             match s1 with
             | c :: s2 =>
                 if N.eqb c (chr "0") then Some (n, [c], s2)
                 else if is_digit c
                      then let (ds, r) := take_digits s2 in Some (n, c :: ds, r)
                      else None
             | [] => None
             end = Some (neg, ds, r) -> List.length r < List.length s).
  { intros n [|c s2] Hlen H; [discriminate|]. simpl in Hlen.
    destruct (N.eqb c (chr "0")); [inversion H; subst; clear H; lia|].
    destruct (is_digit c); [|discriminate].
    pose proof (take_digits_length s2) as Ht.
    destruct (take_digits s2) as [ds' r']. inversion H; subst; clear H. simpl in Ht. lia. }
  destruct s as [|c s']; [discriminate|].
  destruct (N.eqb c (chr "-")); intros H.
  - apply (Hd true s'); [simpl; lia | exact H].
  - apply (Hd false (c :: s')); [simpl; lia | exact H].
Qed.

Lemma scan_frac_length (s : str) : List.length (snd (scan_frac s)) <= List.length s.
Proof.
  unfold scan_frac. destruct s as [|c s1]; [simpl; lia|].
  destruct (N.eqb c (chr ".")); [|simpl; lia].
  pose proof (take_digits_length s1) as Ht.
  destruct (take_digits s1) as [[|d ds] r]; simpl in *; lia.
Qed.

Lemma scan_exp_length (s : str) : List.length (snd (scan_exp s)) <= List.length s.
Proof.
  unfold scan_exp. destruct s as [|c s1]; [simpl; lia|].
  destruct (N.eqb c (chr "e") || N.eqb c (chr "E")); [|simpl; lia].
  destruct s1 as [|d s'].
  - simpl. lia.
  - destruct (N.eqb d (chr "-") || N.eqb d (chr "+")).
    + pose proof (take_digits_length s') as Ht.
      destruct (take_digits s') as [[|x ds] r]; simpl in *; lia.
    + pose proof (take_digits_length (d :: s')) as Ht.
      destruct (take_digits (d :: s')) as [[|x ds] r]; simpl in *; lia.
Qed.

Lemma scan_number_shorter (s : str) (v : result JValue) (r : str) :
  scan_number s = Some (v, r) -> List.length r < List.length s.
Proof.
  unfold scan_number.
  destruct (scan_integer s) as [[[neg ds] r0]|] eqn:Hi; [|discriminate].
  apply scan_integer_shorter in Hi.
  pose proof (scan_frac_length r0) as Hf.
  destruct (scan_frac r0) as [frac r1].
  pose proof (scan_exp_length r1) as He.
  destruct (scan_exp r1) as [ex r2]. simpl in Hf, He.
  destruct frac, ex; try destruct (too_many_digits ds);
    intros H; inversion H; subst; clear H; lia.
Qed.

(** The only exception of the conversion of a number is [ValueError]. *)
Lemma scan_number_raises (s : str) (e : exn) (r : str) :
  scan_number s = Some (Raise e, r) -> e = ValueError.
Proof.
  unfold scan_number.
  destruct (scan_integer s) as [[[neg ds] r0]|]; [|discriminate].
  destruct (scan_frac r0) as [frac r1].
  destruct (scan_exp r1) as [ex r2].
  destruct frac, ex; try destruct (too_many_digits ds);
    intros H; inversion H; reflexivity.
Qed.

Lemma scanstring_shorter (n : nat) : forall s acc v r,
  List.length s <= n ->
  scanstring s acc = Some (v, r) -> List.length r < List.length s.
Proof.
  induction n as [|n IH]; intros s acc v r Hlen H.
  - destruct s; [discriminate | simpl in Hlen; lia].
  - destruct s as [|c s1]; [discriminate|].
    cbn [scanstring] in H. simpl in Hlen |- *.
    destruct (N.eqb c DQUOTE); [inversion H; subst; clear H; lia|].
    destruct (N.eqb c 92).
    + destruct s1 as [|e s2]; [discriminate|].
      destruct (N.eqb e (chr "u")).
      * destruct s2 as [|h1 [|h2 [|h3 [|h4 s3]]]]; try discriminate.
        destruct (hex4 h1 h2 h3 h4) as [u|]; [|discriminate].
        simpl in Hlen |- *.
        destruct (if is_high_surrogate u then low_surrogate_escape s3 else None)
          as [u2|].
        -- destruct s3 as [|a1 [|a2 [|a3 [|a4 [|a5 [|a6 s4]]]]]];
             apply IH in H; simpl in *; lia.
        -- apply IH in H; simpl in *; lia.
      * destruct (simple_escape e); [|discriminate].
        apply IH in H; simpl in *; lia.
    + destruct (N.ltb c 32); [discriminate|].
      apply IH in H; simpl in *; lia.
Qed.

Ltac case_skip_ws x c r :=
  let H := fresh "Hw" in
  pose proof (skip_ws_length x) as H;
  destruct (skip_ws x) as [|c r]; [try discriminate|]; simpl in H.

Ltac literal_rest E :=
  apply strip_prefix_length in E; cbn [List.length] in E |- *;
  change (List.length (py "null")) with 4 in E;
  change (List.length (py "true")) with 4 in E;
  change (List.length (py "false")) with 5 in E;
  change (List.length (py "NaN")) with 3 in E;
  change (List.length (py "Infinity")) with 8 in E;
  change (List.length (py "-Infinity")) with 9 in E.

(** A successful scan consumes at least one character. *)
Lemma scan_shorter (fuel : nat) :
  (forall d s v r, scan_once fuel d s = POk v r -> List.length r < List.length s) /\
  (forall d s acc v r,
      object_members fuel d s acc = POk v r -> List.length r < List.length s) /\
  (forall d s acc v r,
      array_items fuel d s acc = POk v r -> List.length r < List.length s).
Proof.
  induction fuel as [|f (IHs & IHo & IHa)];
    [repeat split; intros; discriminate|].
  repeat split.
  - intros d [|c s1] v r; [discriminate|]. cbn [scan_once].
    destruct (N.eqb c DQUOTE).
    { destruct (scanstring s1 []) as [[v' r']|] eqn:Hs; [|discriminate].
      intros H; inversion H; subst; clear H.
      apply scanstring_shorter with (n := List.length s1) in Hs; simpl; lia. }
    destruct (N.eqb c LBRACE).
    { destruct d as [|d]; [discriminate|].
      case_skip_ws s1 c1 r1. destruct (N.eqb c1 RBRACE); intros H.
      - inversion H; subst; clear H. simpl. lia.
      - apply IHo in H. simpl in *. lia. }
    destruct (N.eqb c (chr "[")).
    { destruct d as [|d]; [discriminate|].
      case_skip_ws s1 c1 r1. destruct (N.eqb c1 (chr "]")); intros H.
      - inversion H; subst; clear H. simpl. lia.
      - apply IHa in H. simpl in *. lia. }
    destruct (strip_prefix (py "null") (c :: s1)) eqn:E1;
      [intros H; inversion H; subst; clear H; literal_rest E1; lia|].
    destruct (strip_prefix (py "true") (c :: s1)) eqn:E2;
      [intros H; inversion H; subst; clear H; literal_rest E2; lia|].
    destruct (strip_prefix (py "false") (c :: s1)) eqn:E3;
      [intros H; inversion H; subst; clear H; literal_rest E3; lia|].
    destruct (scan_number (c :: s1)) as [[[v'|e'] r']|] eqn:E4;
      [intros H; inversion H; subst; clear H; now apply scan_number_shorter in E4
      |discriminate|].
    destruct (strip_prefix (py "NaN") (c :: s1)) eqn:E5;
      [intros H; inversion H; subst; clear H; literal_rest E5; lia|].
    destruct (strip_prefix (py "Infinity") (c :: s1)) eqn:E6;
      [intros H; inversion H; subst; clear H; literal_rest E6; lia|].
    destruct (strip_prefix (py "-Infinity") (c :: s1)) eqn:E7;
      [intros H; inversion H; subst; clear H; literal_rest E7; lia|].
    discriminate.
  - intros d [|c s1] acc v r; [discriminate|]. cbn [object_members].
    destruct (N.eqb c DQUOTE); [|discriminate].
    destruct (scanstring s1 []) as [[key s2]|] eqn:Hs; [|discriminate].
    apply scanstring_shorter with (n := List.length s1) in Hs; [|lia].
    case_skip_ws s2 c2 s3. destruct (N.eqb c2 (chr ":")); [|discriminate].
    pose proof (skip_ws_length s3) as Hl.
    destruct (scan_once f d (skip_ws s3)) as [v' s4| |e'|] eqn:Hv; try discriminate.
    apply IHs in Hv.
    case_skip_ws s4 c4 s5. destruct (N.eqb c4 RBRACE).
    { intros H; inversion H; subst; clear H. simpl. lia. }
    destruct (N.eqb c4 (chr ",")); [|discriminate].
    intros H. apply IHo in H. pose proof (skip_ws_length s5). simpl. lia.
  - intros d s acc v r. cbn [array_items].
    destruct (scan_once f d s) as [v' s1| |e'|] eqn:Hv; try discriminate.
    apply IHs in Hv.
    case_skip_ws s1 c1 r1. destruct (N.eqb c1 (chr "]")).
    { intros H; inversion H; subst; clear H. lia. }
    destruct (N.eqb c1 (chr ",")); [|discriminate].
    intros H. apply IHa in H. pose proof (skip_ws_length r1). lia.
Qed.

(** Twice the length of the input, plus one, is enough fuel. *)
Lemma scan_fuel (fuel : nat) :
  (forall d s, 2 * List.length s < fuel -> scan_once fuel d s <> PFuel) /\
  (forall d s acc,
      2 * List.length s + 1 < fuel -> object_members fuel d s acc <> PFuel) /\
  (forall d s acc,
      2 * List.length s + 1 < fuel -> array_items fuel d s acc <> PFuel).
Proof.
  induction fuel as [|f (IHs & IHo & IHa)]; [repeat split; intros; lia|].
  destruct (scan_shorter f) as (Shs & Sho & Sha).
  repeat split.
  - intros d [|c s1] Hlen; [discriminate|]. cbn [scan_once]. simpl in Hlen.
    destruct (N.eqb c DQUOTE).
    { destruct (scanstring s1 []) as [[v' r']|]; discriminate. }
    destruct (N.eqb c LBRACE).
    { destruct d as [|d]; [discriminate|].
      case_skip_ws s1 c1 r1. destruct (N.eqb c1 RBRACE); [discriminate|].
      apply IHo. simpl. lia. }
    destruct (N.eqb c (chr "[")).
    { destruct d as [|d]; [discriminate|].
      case_skip_ws s1 c1 r1. destruct (N.eqb c1 (chr "]")); [discriminate|].
      apply IHa. simpl. lia. }
    destruct (strip_prefix (py "null") (c :: s1)); [discriminate|].
    destruct (strip_prefix (py "true") (c :: s1)); [discriminate|].
    destruct (strip_prefix (py "false") (c :: s1)); [discriminate|].
    destruct (scan_number (c :: s1)) as [[[v'|e'] r']|]; [discriminate|discriminate|].
    destruct (strip_prefix (py "NaN") (c :: s1)); [discriminate|].
    destruct (strip_prefix (py "Infinity") (c :: s1)); [discriminate|].
    destruct (strip_prefix (py "-Infinity") (c :: s1)); discriminate.
  - intros d [|c s1] acc Hlen; [discriminate|]. cbn [object_members]. simpl in Hlen.
    destruct (N.eqb c DQUOTE); [|discriminate].
    destruct (scanstring s1 []) as [[key s2]|] eqn:Hs; [|discriminate].
    apply scanstring_shorter with (n := List.length s1) in Hs; [|lia].
    case_skip_ws s2 c2 s3. destruct (N.eqb c2 (chr ":")); [|discriminate].
    pose proof (skip_ws_length s3) as Hl.
    destruct (scan_once f d (skip_ws s3)) as [v' s4| |e'|] eqn:Hv; try discriminate.
    + apply Shs in Hv.
      case_skip_ws s4 c4 s5. destruct (N.eqb c4 RBRACE); [discriminate|].
      destruct (N.eqb c4 (chr ",")); [|discriminate].
      apply IHo. pose proof (skip_ws_length s5). lia.
    + exfalso. revert Hv. apply IHs. lia.
  - intros d s acc Hlen. cbn [array_items].
    destruct (scan_once f d s) as [v' s1| |e'|] eqn:Hv; try discriminate.
    + apply Shs in Hv.
      case_skip_ws s1 c1 r1. destruct (N.eqb c1 (chr "]")); [discriminate|].
      destruct (N.eqb c1 (chr ",")); [|discriminate].
      apply IHa. pose proof (skip_ws_length r1). lia.
    + exfalso. revert Hv. apply IHs. lia.
Qed.

(** The scan of [json_loads] never runs out of fuel. *)
Lemma json_loads_fuel (s : str) :
  scan_once (S (2 * List.length s)) max_nesting (skip_ws s) <> PFuel.
Proof.
  apply scan_fuel. pose proof (skip_ws_length s). lia.
Qed.

(** Besides a syntax error, the scan raises [RecursionError] and
    [ValueError] only. *)
Lemma scan_raises (fuel : nat) :
  (forall d s e, scan_once fuel d s = PRaise e ->
                 e = RecursionError \/ e = ValueError) /\
  (forall d s acc e, object_members fuel d s acc = PRaise e ->
                     e = RecursionError \/ e = ValueError) /\
  (forall d s acc e, array_items fuel d s acc = PRaise e ->
                     e = RecursionError \/ e = ValueError).
Proof.
  induction fuel as [|f (IHs & IHo & IHa)];
    [repeat split; intros; discriminate|].
  repeat split.
  - intros d [|c s1] e; [discriminate|]. cbn [scan_once].
    destruct (N.eqb c DQUOTE).
    { destruct (scanstring s1 []) as [[v' r']|]; discriminate. }
    destruct (N.eqb c LBRACE).
    { destruct d as [|d]; [intros H; inversion H; now left|].
      destruct (skip_ws s1) as [|c1 r1]; [discriminate|].
      destruct (N.eqb c1 RBRACE); [discriminate|]. apply IHo. }
    destruct (N.eqb c (chr "[")).
    { destruct d as [|d]; [intros H; inversion H; now left|].
      destruct (skip_ws s1) as [|c1 r1]; [discriminate|].
      destruct (N.eqb c1 (chr "]")); [discriminate|]. apply IHa. }
    destruct (strip_prefix (py "null") (c :: s1)); [discriminate|].
    destruct (strip_prefix (py "true") (c :: s1)); [discriminate|].
    destruct (strip_prefix (py "false") (c :: s1)); [discriminate|].
    destruct (scan_number (c :: s1)) as [[[v'|e'] r']|] eqn:E4; [discriminate| |].
    { intros H; inversion H; subst. right. now apply scan_number_raises in E4. }
    destruct (strip_prefix (py "NaN") (c :: s1)); [discriminate|].
    destruct (strip_prefix (py "Infinity") (c :: s1)); [discriminate|].
    destruct (strip_prefix (py "-Infinity") (c :: s1)); discriminate.
  - intros d [|c s1] acc e; [discriminate|]. cbn [object_members].
    destruct (N.eqb c DQUOTE); [|discriminate].
    destruct (scanstring s1 []) as [[key s2]|]; [|discriminate].
    destruct (skip_ws s2) as [|c2 s3]; [discriminate|].
    destruct (N.eqb c2 (chr ":")); [|discriminate].
    destruct (scan_once f d (skip_ws s3)) as [v' s4| |e'|] eqn:Hv; try discriminate.
    + destruct (skip_ws s4) as [|c4 s5]; [discriminate|].
      destruct (N.eqb c4 RBRACE); [discriminate|].
      destruct (N.eqb c4 (chr ",")); [|discriminate]. apply IHo.
    + intros H; inversion H; subst. now apply IHs in Hv.
  - intros d s acc e. cbn [array_items].
    destruct (scan_once f d s) as [v' s1| |e'|] eqn:Hv; try discriminate.
    + destruct (skip_ws s1) as [|c1 r1]; [discriminate|].
      destruct (N.eqb c1 (chr "]")); [discriminate|].
      destruct (N.eqb c1 (chr ",")); [|discriminate]. apply IHa.
    + intros H; inversion H; subst. now apply IHs in Hv.
Qed.

(** The exceptions of [json_loads]. *)
Lemma json_loads_raises (s : str) (e : exn) :
  json_loads s = Raise e ->
  e = JSONDecodeError \/ e = RecursionError \/ e = ValueError.
Proof.
  unfold json_loads. pose proof (json_loads_fuel s) as Hf.
  destruct (scan_once _ _ _) as [v r| |e'|] eqn:E.
  - destruct (skip_ws r); intros H; inversion H. now left.
  - intros H; inversion H. now left.
  - intros H; inversion H; subst. right. now apply (proj1 (scan_raises _)) in E.
  - congruence.
Qed.

(** All of them are [Exception]s. *)
Lemma json_loads_raises_Exception (s : str) (e : exn) :
  json_loads s = Raise e -> is_Exception e = true.
Proof.
  intros H. apply json_loads_raises in H.
  destruct H as [->|[->| ->]]; reflexivity.
Qed.

End Fuel.

(* ===================================================================== *)
(** * The scan of [JSON_PATTERN] *)
(* ===================================================================== *)

Section Scan.

Lemma spans_junk (j : str) : forall j0 s,
  no_lbrace j -> spans j0 None (j ++ s) = spans (j0 ++ j) None s.
Proof.
  induction j as [|c j IH]; intros j0 s H; simpl.
  - now rewrite app_nil_r.
  - inversion H as [|? ? Hc Hj]; subst. rewrite Hc.
    rewrite IH by assumption. now rewrite <- app_assoc.
Qed.

Lemma spans_body (b : str) : forall j b0 s,
  no_rbrace b -> spans j (Some b0) (b ++ s) = spans j (Some (b0 ++ b)) s.
Proof.
  induction b as [|c b IH]; intros j b0 s H; simpl.
  - now rewrite app_nil_r.
  - inversion H as [|? ? Hc Hb]; subst. rewrite Hc.
    rewrite IH by assumption. now rewrite <- app_assoc.
Qed.

(** Reading the pending text again from the initial state leads back to
    the state that left it pending. *)
Lemma spans_replay (junk : str) (cur : option str) (s : str) :
  wf_scan junk cur ->
  spans [] None (junk ++ cur_text cur ++ s) = spans junk cur s.
Proof.
  intros [Hj Hc]. rewrite spans_junk by assumption. simpl.
  destruct cur as [b|]; simpl; [|reflexivity].
  destruct Hc as (b' & -> & Hb). simpl.
  change (N.eqb LBRACE LBRACE) with true. cbv iota.
  now rewrite spans_body.
Qed.

Lemma wf_scan_init : wf_scan [] None.
Proof. split; [constructor | exact I]. Qed.

Lemma wf_scan_junk (junk : str) (c : N) :
  no_lbrace junk -> N.eqb c LBRACE = false -> wf_scan (junk ++ [c]) None.
Proof.
  intros Hj Hc. split; [|exact I].
  apply Forall_app; split; [assumption | now constructor].
Qed.

Lemma wf_scan_open (junk : str) (c : N) :
  no_lbrace junk -> N.eqb c LBRACE = true -> wf_scan junk (Some [c]).
Proof.
  intros Hj Hc. split; [assumption|].
  apply N.eqb_eq in Hc. subst c. exists []. split; [reflexivity | constructor].
Qed.

Lemma wf_scan_grow (junk b : str) (c : N) :
  wf_scan junk (Some b) -> N.eqb c RBRACE = false -> wf_scan junk (Some (b ++ [c])).
Proof.
  intros [Hj (b' & -> & Hb)] Hc. split; [assumption|].
  exists (b' ++ [c]). split; [reflexivity|].
  apply Forall_app; split; [assumption | now constructor].
Qed.

(** The scan of a text cut in two: the spans of the first part, then the
    spans of what it left pending followed by the second part. *)
Lemma spans_app (a : str) : forall junk cur b,
  wf_scan junk cur ->
  spans junk cur (a ++ b) =
  (fst (spans junk cur a) ++ fst (spans [] None (snd (spans junk cur a) ++ b)),
   snd (spans [] None (snd (spans junk cur a) ++ b))).
Proof.
  induction a as [|c a IH]; intros junk cur b Hwf.
  - simpl. rewrite <- app_assoc, spans_replay by assumption.
    now destruct (spans junk cur b).
  - simpl. destruct cur as [b0|].
    + destruct (N.eqb c RBRACE) eqn:Hc.
      * rewrite (IH [] None b wf_scan_init).
        destruct (spans [] None a) as [l r]. reflexivity.
      * apply IH. now apply wf_scan_grow.
    + destruct (N.eqb c LBRACE) eqn:Hc.
      * apply IH. apply wf_scan_open; [apply Hwf | assumption].
      * apply IH. apply wf_scan_junk; [apply Hwf | assumption].
Qed.

(** Every span has the shape of the pattern. *)
Lemma spans_shape (s : str) : forall junk cur,
  wf_scan junk cur -> Forall span_shape (fst (spans junk cur s)).
Proof.
  induction s as [|c s IH]; intros junk cur Hwf; simpl.
  - constructor.
  - destruct cur as [b0|].
    + destruct (N.eqb c RBRACE) eqn:Hc.
      * specialize (IH [] None wf_scan_init).
        destruct (spans [] None s) as [l r]. simpl in *.
        constructor; [|assumption].
        destruct Hwf as [_ (b' & -> & Hb)]. exists b'.
        apply N.eqb_eq in Hc. subst c. split; [reflexivity | assumption].
      * apply IH. now apply wf_scan_grow.
    + destruct (N.eqb c LBRACE) eqn:Hc.
      * apply IH. apply wf_scan_open; [apply Hwf | assumption].
      * apply IH. apply wf_scan_junk; [apply Hwf | assumption].
Qed.

(** No span is left in the text that the machine holds pending. *)
Lemma pending_no_span (junk : str) (cur : option str) :
  wf_scan junk cur -> ~ has_span (junk ++ cur_text cur).
Proof.
  intros [Hj Hc] (a & b & c & H).
  apply app_eq_app in H. destruct H as (l & [[-> H] | [-> H]]).
  - destruct l as [|x l].
    + rewrite app_nil_r in Hj. simpl in H.
      destruct cur as [b0|]; simpl in H; [|discriminate].
      destruct Hc as (b' & -> & Hb). inversion H; subst.
      unfold no_rbrace in Hb. rewrite Forall_forall in Hb.
      specialize (Hb RBRACE (in_elt _ _ _)). discriminate.
    + inversion H; subst.
      apply Forall_app in Hj. destruct Hj as [_ Hj].
      inversion Hj as [|? ? Hx _]; subst. discriminate.
  - destruct cur as [b0|]; simpl in H.
    + destruct Hc as (b' & -> & Hb).
      assert (Hin : In RBRACE b').
      { destruct l as [|x l]; simpl in H; inversion H; subst;
          [apply in_elt | apply in_or_app; right; right; apply in_elt]. }
      unfold no_rbrace in Hb. rewrite Forall_forall in Hb.
      specialize (Hb RBRACE Hin). discriminate.
    + symmetry in H. apply app_eq_nil in H. destruct H as [_ H]. discriminate.
Qed.

(** The machine cuts the text: each span it completes is preceded by text
    without opening brace, and no span is left in what it holds pending
    at the end. *)
Lemma spans_cut (s : str) : forall junk cur,
  wf_scan junk cur ->
  exists pieces,
    map snd pieces = fst (spans junk cur s) /\
    cut_into pieces (snd (spans junk cur s)) (junk ++ cur_text cur ++ s).
Proof.
  induction s as [|c s IH]; intros junk cur Hwf.
  - exists []. simpl. rewrite app_nil_r. split; [reflexivity|].
    split; [reflexivity|]. split; [constructor | now apply pending_no_span].
  - simpl spans. destruct cur as [b0|].
    + destruct (N.eqb c RBRACE) eqn:Hc.
      * destruct (IH [] None wf_scan_init) as (pieces & Hm & Hy & Hp & Hr).
        destruct (spans [] None s) as [l r]. simpl in Hm, Hy, Hr |- *.
        exists ((junk, b0 ++ [c]) :: pieces). split; [simpl; now rewrite Hm|].
        split; [|split].
        -- simpl. rewrite <- !app_assoc. simpl. now rewrite <- Hy.
        -- constructor; [|assumption]. simpl. split; [apply Hwf|].
           destruct Hwf as [_ (b' & -> & Hb)]. exists b'.
           apply N.eqb_eq in Hc. subst c. split; [reflexivity | assumption].
        -- assumption.
      * destruct (IH junk (Some (b0 ++ [c])) (@wf_scan_grow junk b0 c Hwf Hc))
          as (pieces & Hm & Hy & Hp & Hr).
        exists pieces. split; [assumption|]. split; [|split; assumption].
        rewrite <- Hy. simpl. now rewrite <- !app_assoc.
    + destruct (N.eqb c LBRACE) eqn:Hc.
      * destruct (IH junk (Some [c]) (@wf_scan_open junk c (proj1 Hwf) Hc))
          as (pieces & Hm & Hy & Hp & Hr).
        exists pieces. split; [assumption|]. split; [|split; assumption].
        rewrite <- Hy. reflexivity.
      * destruct (IH (junk ++ [c]) None (@wf_scan_junk junk c (proj1 Hwf) Hc))
          as (pieces & Hm & Hy & Hp & Hr).
        exists pieces. split; [assumption|]. split; [|split; assumption].
        rewrite <- Hy. simpl. now rewrite <- !app_assoc.
Qed.

(** A text that is cut into at least one piece holds a span. *)
Lemma cut_into_has_span (p : str * str) (pieces : list (str * str)) (rest y : str) :
  cut_into (p :: pieces) rest y -> has_span y.
Proof.
  intros (Hy & Hp & _). destruct p as [junk sp].
  inversion Hp as [|? ? [_ (body & Hs & _)] _]; subst. simpl in Hs. subst sp.
  exists junk, body, (flat_map (fun q => fst q ++ snd q) pieces ++ rest).
  simpl. rewrite <- !app_assoc. simpl. now rewrite <- !app_assoc.
Qed.

End Scan.

Section Finditer.

Lemma skipn_length_app (A : Type) (l r : list A) : skipn (List.length l) (l ++ r) = r.
Proof. induction l; simpl; auto. Qed.

Lemma firstn_length_app (A : Type) (l r : list A) : firstn (List.length l) (l ++ r) = l.
Proof. induction l; simpl; f_equal; auto. Qed.

(** The matches found by [finditer], read as positions in the searched
    text [w], are the spans of the machine, and the text after the last
    match is the text the machine leaves pending. *)
Lemma finditer_from_spans (s : str) : forall pre junk cur w pos start d,
  w = pre ++ junk ++ cur_text cur ++ s ->
  pos = List.length (pre ++ junk ++ cur_text cur) ->
  start = match cur with
          | None => None
          | Some _ => Some (List.length (pre ++ junk))
          end ->
  map (group w) (finditer_from s pos start) = fst (spans junk cur s) /\
  match finditer_from s pos start with
  | [] => junk ++ cur_text cur ++ s
  | _ :: _ => slice_from (m_end (last (finditer_from s pos start) d)) w
  end = snd (spans junk cur s).
Proof.
  induction s as [|c s IH]; intros pre junk cur w pos start d Hw Hpos Hstart.
  - simpl. now rewrite app_nil_r.
  - destruct cur as [b|]; subst start; simpl finditer_from; simpl spans.
    + destruct (N.eqb c RBRACE) eqn:Hc.
      * destruct (IH (pre ++ junk ++ b ++ [c]) [] None w (S pos) None d) as [IH1 IH2].
        { subst w. simpl. now rewrite <- !app_assoc. }
        { subst pos. simpl. rewrite !app_nil_r, !length_app. simpl. lia. }
        { reflexivity. }
        destruct (spans [] None s) as [l r]. simpl in IH1, IH2. simpl fst; simpl snd.
        assert (Hskip : slice_from (S pos) w = s).
        { subst w pos. unfold slice_from. simpl cur_text.
          replace (pre ++ junk ++ b ++ c :: s) with ((pre ++ junk ++ b ++ [c]) ++ s)
            by now rewrite <- !app_assoc.
          replace (S (List.length (pre ++ junk ++ b)))
            with (List.length (pre ++ junk ++ b ++ [c]))
            by (rewrite !length_app; simpl; lia).
          apply skipn_length_app. }
        split.
        -- simpl map. f_equal; [|exact IH1].
           unfold group, slice. simpl m_start. simpl m_end.
           subst w pos. simpl cur_text.
           replace (pre ++ junk ++ b ++ c :: s) with ((pre ++ junk) ++ (b ++ [c]) ++ s)
             by now rewrite <- !app_assoc.
           rewrite skipn_length_app.
           replace (S (List.length (pre ++ junk ++ b)) - List.length (pre ++ junk))
             with (List.length (b ++ [c]))
             by (rewrite !length_app; cbn [List.length]; lia).
           apply firstn_length_app.
        -- destruct (finditer_from s (S pos) None) as [|m1 ms] eqn:Hms.
           ++ simpl last. simpl m_end. rewrite Hskip. exact IH2.
           ++ exact IH2.
      * destruct (IH pre junk (Some (b ++ [c])) w (S pos)
                    (Some (List.length (pre ++ junk))) d) as [IH1 IH2].
        { subst w. simpl. now rewrite <- !app_assoc. }
        { subst pos. simpl. rewrite !length_app. simpl. lia. }
        { reflexivity. }
        split; [exact IH1|].
        rewrite <- IH2. simpl. now rewrite <- !app_assoc.
    + destruct (N.eqb c LBRACE) eqn:Hc.
      * destruct (IH pre junk (Some [c]) w (S pos) (Some pos) d) as [IH1 IH2].
        { subst w. reflexivity. }
        { subst pos. simpl. rewrite !length_app. simpl. lia. }
        { subst pos. simpl. now rewrite app_nil_r. }
        split; [exact IH1 | exact IH2].
      * destruct (IH pre (junk ++ [c]) None w (S pos) None d) as [IH1 IH2].
        { subst w. simpl. now rewrite <- !app_assoc. }
        { subst pos. simpl. rewrite !app_nil_r, !length_app. simpl. lia. }
        { reflexivity. }
        split; [exact IH1|].
        rewrite <- IH2. simpl. now rewrite <- !app_assoc.
Qed.

(** The matches lie in the searched text, one after the other. *)
Lemma finditer_from_sorted (s : str) : forall pos start lo,
  lo <= pos ->
  (forall i, start = Some i -> lo <= i < pos) ->
  Forall (fun m => lo <= m_start m < m_end m /\ m_end m <= pos + List.length s)
         (finditer_from s pos start) /\
  StronglySorted (fun m1 m2 => m_end m1 <= m_start m2) (finditer_from s pos start).
Proof.
  induction s as [|c s IH]; intros pos start lo Hlo Hstart; simpl.
  - split; constructor.
  - destruct start as [i|].
    + destruct (Hstart i eq_refl) as [Hi1 Hi2].
      destruct (N.eqb c RBRACE).
      * destruct (IH (S pos) None (S pos)) as [Hb Hs]; [lia | discriminate |].
        split.
        -- constructor; [simpl; lia|].
           eapply Forall_impl; [|exact Hb]. simpl. intros m Hm. lia.
        -- constructor; [exact Hs|].
           eapply Forall_impl; [|exact Hb]. simpl. intros m Hm. lia.
      * destruct (IH (S pos) (Some i) lo) as [Hb Hs].
        { lia. }
        { intros j [= <-]. lia. }
        split; [|exact Hs].
        eapply Forall_impl; [|exact Hb]. simpl. intros m Hm. lia.
    + destruct (N.eqb c LBRACE).
      * destruct (IH (S pos) (Some pos) lo) as [Hb Hs].
        { lia. }
        { intros j [= <-]. lia. }
        split; [|exact Hs].
        eapply Forall_impl; [|exact Hb]. simpl. intros m Hm. lia.
      * destruct (IH (S pos) None lo) as [Hb Hs]; [lia | discriminate |].
        split; [|exact Hs].
        eapply Forall_impl; [|exact Hb]. simpl. intros m Hm. lia.
Qed.

Lemma finditer_sorted (y : str) :
  Forall (fun m => m_start m < m_end m /\ m_end m <= List.length y) (finditer y) /\
  StronglySorted (fun m1 m2 => m_end m1 <= m_start m2) (finditer y).
Proof.
  destruct (@finditer_from_sorted y 0 None 0) as [Hb Hs]; [lia | discriminate |].
  split; [|exact Hs].
  eapply Forall_impl; [|exact Hb]. simpl. intros m Hm. lia.
Qed.

Lemma candidates_spans (y : str) : candidates y = fst (spans [] None y).
Proof.
  unfold candidates, finditer.
  now destruct (finditer_from_spans y [] [] None (w := y) (pos := 0) (start := None)
                  {| m_start := 0; m_end := 0 |} eq_refl eq_refl eq_refl).
Qed.

Lemma remainder_spans (y : str) : remainder y = snd (spans [] None y).
Proof.
  unfold remainder, finditer.
  destruct (finditer_from y 0 None) as [|m0 ms] eqn:Hms.
  - destruct (finditer_from_spans y [] [] None (w := y) (pos := 0) (start := None)
                {| m_start := 0; m_end := 0 |} eq_refl eq_refl eq_refl) as [_ H].
    now rewrite Hms in H.
  - destruct (finditer_from_spans y [] [] None (w := y) (pos := 0) (start := None)
                m0 eq_refl eq_refl eq_refl) as [_ H].
    now rewrite Hms in H.
Qed.

(** Cutting the searched text in two. *)
Lemma candidates_app (x b : str) :
  candidates (x ++ b) = candidates x ++ candidates (remainder x ++ b).
Proof.
  rewrite !candidates_spans, remainder_spans.
  now rewrite (spans_app x b wf_scan_init).
Qed.

Lemma remainder_app (x b : str) :
  remainder (x ++ b) = remainder (remainder x ++ b).
Proof.
  rewrite !remainder_spans.
  now rewrite (spans_app x b wf_scan_init).
Qed.

(** What is left pending holds no complete span. *)
Lemma candidates_remainder (y : str) : candidates (remainder y) = [].
Proof.
  pose proof (candidates_app y []) as H. rewrite !app_nil_r in H.
  apply (f_equal (@List.length str)) in H. rewrite length_app in H.
  destruct (candidates (remainder y)); [reflexivity | simpl in H; lia].
Qed.

Lemma finditer_remainder (y : str) : finditer (remainder y) = [].
Proof.
  pose proof (candidates_remainder y) as H. unfold candidates in H.
  now destruct (finditer (remainder y)).
Qed.

Lemma remainder_idem (y : str) : remainder (remainder y) = remainder y.
Proof. unfold remainder at 1. now rewrite finditer_remainder. Qed.

(** The searched text is what the last match ends with, then the
    remainder. *)
Lemma remainder_suffix (y : str) : exists consumed, y = consumed ++ remainder y.
Proof.
  unfold remainder. destruct (finditer y) as [|m0 ms].
  - now exists [].
  - exists (firstn (m_end (last (m0 :: ms) m0)) y). unfold slice_from.
    now rewrite firstn_skipn.
Qed.

Lemma candidates_shape (y : str) : Forall span_shape (candidates y).
Proof. rewrite candidates_spans. apply spans_shape, wf_scan_init. Qed.

(** The candidates and the remainder of a text are a cut of the text. *)
Lemma candidates_cut (y : str) :
  exists pieces, map snd pieces = candidates y /\ cut_into pieces (remainder y) y.
Proof.
  rewrite candidates_spans, remainder_spans.
  exact (spans_cut y wf_scan_init).
Qed.

End Finditer.

(* ===================================================================== *)
(** * [DataProcessor]: what a call of [add_chunk] does *)
(* ===================================================================== *)

Section Extractor.
Context {interp : Interpreter}.
Import DataProcessor.

Lemma parse_json_run (c : str) (self : state) :
  _parse_json c self = (Ok (accepted c), self).
Proof.
  unfold _parse_json, try_except, bind, lift_result, accepted.
  destruct (json_loads c) as [v|e] eqn:E.
  - destruct v as [| | | | | |d]; try reflexivity. now destruct d.
  - apply json_loads_raises_Exception in E.
    destruct e; try discriminate E; reflexivity.
Qed.

Lemma counted_nil (self : state) : counted [] (buffer self) self = self.
Proof.
  destruct self. unfold counted, count_rejected. simpl.
  now rewrite !Nat.add_0_r.
Qed.

Lemma counted_cons (c : str) (cs : list str) (b : str) (self : state) :
  counted cs b
    (match accepted c with
     | Some _ => incr_parsed (incr_received self)
     | None => incr_invalid (incr_received self)
     end)
  = counted (c :: cs) b self.
Proof.
  unfold counted, count_rejected, records_of, is_accepted. simpl.
  destruct (accepted c); simpl; rewrite ?length_app; simpl; f_equal; lia.
Qed.

Lemma counted_app (c1 c2 : list str) (b1 b2 : str) (self : state) :
  counted c2 b2 (counted c1 b1 self) = counted (c1 ++ c2) b2 self.
Proof.
  unfold counted, count_rejected, records_of. simpl.
  rewrite flat_map_app, filter_app, !length_app. f_equal; lia.
Qed.

Lemma records_of_app (c1 c2 : list str) :
  records_of (c1 ++ c2) = records_of c1 ++ records_of c2.
Proof. apply flat_map_app. Qed.

Lemma records_rejected_length (cands : list str) :
  List.length (records_of cands) + count_rejected cands = List.length cands.
Proof.
  unfold records_of, count_rejected, is_accepted.
  induction cands as [|c cs IH]; simpl; [reflexivity|].
  destruct (accepted c); simpl; rewrite ?length_app; simpl; lia.
Qed.

(** The [for] loop of [add_chunk]. *)
Lemma add_chunk_loop (buf : str) (ms : list Match) : forall acc self,
  foldM (add_chunk_body buf) ms acc self
  = (Ok (acc ++ records_of (map (group buf) ms)),
     counted (map (group buf) ms) (buffer self) self).
Proof.
  induction ms as [|m ms IH]; intros acc self.
  - simpl. unfold ret. now rewrite app_nil_r, counted_nil.
  - cbn [foldM map]. unfold bind at 1. unfold add_chunk_body.
    unfold bind at 1. unfold modify at 1.
    unfold bind at 1. rewrite parse_json_run.
    rewrite <- counted_cons.
    destruct (accepted (group buf m)) as [d|] eqn:Ha.
    + unfold bind, modify, ret. rewrite IH.
      unfold records_of at 2. simpl. rewrite Ha. fold (records_of (map (group buf) ms)).
      now rewrite <- app_assoc.
    + unfold bind, modify, ret. rewrite IH.
      unfold records_of at 2. simpl. rewrite Ha. reflexivity.
Qed.

(** A call of [add_chunk] returns the accepted candidates of the buffer
    extended with the chunk, counts them, and keeps the remainder. *)
Lemma add_chunk_run (text : str) (self : state) :
  add_chunk text self
  = (Ok (records_of (candidates (buffer self ++ text))),
     counted (candidates (buffer self ++ text)) (remainder (buffer self ++ text)) self).
Proof.
  unfold add_chunk, bind, modify, get. cbn [buffer set_buffer].
  unfold candidates, remainder.
  destruct (finditer (buffer self ++ text)) as [|m0 ms] eqn:Hm.
  - unfold ret. simpl. f_equal. destruct self. unfold counted, count_rejected, set_buffer.
    simpl. now rewrite !Nat.add_0_r.
  - rewrite add_chunk_loop. unfold ret. reflexivity.
Qed.

(** Two calls in a row do what one call on the two chunks together
    does. *)
Lemma add_chunk_twice (a b : str) (self : state) :
  (r1 <- add_chunk a ;; r2 <- add_chunk b ;; ret (r1 ++ r2)) self
  = add_chunk (a ++ b) self.
Proof.
  unfold bind, ret. rewrite !add_chunk_run. cbn [buffer counted].
  rewrite counted_app, <- records_of_app.
  rewrite app_assoc, <- candidates_app, <- remainder_app. reflexivity.
Qed.

(** Chunking invariance, for every input: however a text is cut into
    chunks, feeding the chunks one by one returns, all calls together,
    what a single call on the whole text returns, and ends in the same
    state. *)
Lemma feed_one_call (chunks : list str) : forall self,
  finditer (buffer self) = [] ->
  feed chunks self = add_chunk (List.concat chunks) self.
Proof.
  induction chunks as [|c cs IH]; intros self Hb.
  - simpl. rewrite add_chunk_run, app_nil_r. unfold candidates, remainder.
    rewrite Hb. unfold ret. simpl. f_equal. symmetry. apply counted_nil.
  - cbn [feed List.concat]. rewrite <- add_chunk_twice.
    unfold bind. rewrite add_chunk_run.
    rewrite IH by (cbn [counted buffer]; apply finditer_remainder).
    reflexivity.
Qed.

End Extractor.

(* ===================================================================== *)
(** * Claims about the extractor *)
(* ===================================================================== *)

Section ExtractorClaims.
Context {interp : Interpreter}.
Import DataProcessor.

(** The spans of a text made of objects without inner closing brace and
    of brace-free separators are the objects. *)
Lemma spans_stream (items : list (str * str)) : forall junk sep0,
  no_lbrace junk -> no_brace sep0 ->
  Forall (fun it => span_shape (fst it) /\ no_brace (snd it)) items ->
  fst (spans junk None (stream sep0 items)) = map fst items.
Proof.
  induction items as [|[o sep] items IH]; intros junk sep0 Hj [Hs _] Hit;
    unfold stream; rewrite spans_junk by assumption.
  - reflexivity.
  - apply Forall_cons_iff in Hit.
    destruct Hit as [[(body & Ho & Hr) Hsep] Hrest].
    cbn [fst snd] in Ho, Hsep. subst o.
    cbn [flat_map fst snd]. rewrite <- !app_assoc.
    cbn [app spans]. change (N.eqb LBRACE LBRACE) with true. cbv iota.
    rewrite <- app_assoc, spans_body by assumption.
    cbn [app spans]. change (N.eqb RBRACE RBRACE) with true. cbv iota.
    specialize (IH [] sep (Forall_nil _) Hsep Hrest). unfold stream in IH.
    destruct (spans [] None _) as [l r].
    simpl in IH. simpl. now rewrite IH.
Qed.

Lemma records_of_valid (items : list (str * str)) :
  Forall (fun it => valid_object (fst it)) items ->
  Forall2 (fun it r => json_loads (fst it) = Ok (JObj r) /\ r <> [])
          items (records_of (map fst items)).
Proof.
  induction 1 as [|[o sep] items (kv & d & Hv) _ IH]; simpl in *.
  - constructor.
  - unfold records_of. simpl. unfold accepted at 1. rewrite Hv. simpl.
    constructor; [split; [assumption | discriminate] | exact IH].
Qed.

(** C1, as amended.  When the text fed to a fresh extractor is made of
    N non-empty JSON objects that [json.loads] decodes and that hold no
    closing brace before their last character, separated by text
    without braces, the calls of [add_chunk] return, all together,
    exactly the decoded N objects in the order of the text, however the
    text is cut into chunks. *)
Theorem chunking_invariance_flat_objects
  (sep0 : str) (items : list (str * str)) (chunks : list str) :
  no_brace sep0 ->
  Forall (fun it => span_shape (fst it) /\ no_brace (snd it)) items ->
  Forall (fun it => valid_object (fst it)) items ->
  List.concat chunks = stream sep0 items ->
  exists rs self',
    feed chunks init = (Ok rs, self') /\
    Forall2 (fun it r => json_loads (fst it) = Ok (JObj r) /\ r <> []) items rs.
Proof.
  intros Hsep Hflat Hvalid Hcat.
  rewrite feed_one_call by reflexivity.
  rewrite add_chunk_run, Hcat. cbn [buffer init app].
  rewrite candidates_spans, (spans_stream (Forall_nil _) Hsep Hflat).
  eexists. eexists. split; [reflexivity|].
  now apply records_of_valid.
Qed.

(** C4.  After [add_chunk(text)], with [y] the old buffer followed by
    [text]: [y] is cut, from left to right, into spans that go from an
    opening brace to the first closing brace after it, each preceded by
    text without opening brace, and a rest in which no opening brace is
    followed by a closing brace; the call evaluates these spans and the
    rest is the new buffer.  So when [y] holds no span the call returns
    nothing and the buffer is [y], and when it holds one the buffer
    starts after the closing brace of the last span.  In terms of the
    pattern: the spans are its matches, the buffer is [y] when it
    matches nowhere and otherwise the part of [y] after the end of the
    last match, and it matches nowhere in the new buffer. *)
Theorem add_chunk_buffer_postcondition (self : state) (text : str) :
  exists rs self' pieces,
    add_chunk text self = (Ok rs, self') /\
    cut_into pieces (buffer self') (buffer self ++ text) /\
    rs = records_of (map snd pieces) /\
    map snd pieces
    = map (group (buffer self ++ text)) (finditer (buffer self ++ text)) /\
    (~ has_span (buffer self ++ text) ->
       rs = [] /\ buffer self' = buffer self ++ text) /\
    (has_span (buffer self ++ text) ->
       exists consumed junk body,
         buffer self ++ text
         = consumed ++ junk ++ LBRACE :: body ++ RBRACE :: buffer self' /\
         no_rbrace body) /\
    (finditer (buffer self ++ text) = [] ->
       rs = [] /\ buffer self' = buffer self ++ text) /\
    (forall m0 ms, finditer (buffer self ++ text) = m0 :: ms ->
       buffer self' = slice_from (m_end (last (m0 :: ms) m0)) (buffer self ++ text)) /\
    finditer (buffer self') = [] /\
    (exists consumed, buffer self ++ text = consumed ++ buffer self').
Proof.
  destruct (candidates_cut (buffer self ++ text)) as (pieces & Hm & Hcut).
  exists (records_of (candidates (buffer self ++ text))).
  eexists. exists pieces.
  split; [apply add_chunk_run|]. cbn [counted buffer].
  split; [exact Hcut|]. split; [now rewrite Hm|]. split; [exact Hm|].
  split; [|split; [|split; [|split; [|split]]]].
  - intros Hno. destruct pieces as [|p pieces].
    + destruct Hcut as (Hy & _). simpl in Hy. rewrite <- Hm. now split.
    + elim Hno. exact (cut_into_has_span Hcut).
  - intros Hspan. destruct Hcut as (Hy & Hp & Hr).
    destruct (@exists_last _ pieces) as (front & [junk sp] & ->).
    { intros ->. simpl in Hy. rewrite <- Hy in Hr. contradiction. }
    apply Forall_app in Hp. destruct Hp as [_ Hp].
    inversion Hp as [|? ? [_ (body & Hs & Hb)] _]; subst. simpl in Hs. subst sp.
    exists (flat_map (fun p => fst p ++ snd p) front), junk, body.
    split; [|assumption].
    rewrite Hy at 1. rewrite flat_map_app. simpl.
    rewrite app_nil_r, <- !app_assoc. simpl. now rewrite <- !app_assoc.
  - intros H. unfold candidates, remainder. rewrite H. now split.
  - intros m0 ms H. unfold remainder. now rewrite H.
  - apply finditer_remainder.
  - apply remainder_suffix.
Qed.

(** C5.  A call of [add_chunk] raises nothing.  With [cands] the
    candidate spans it evaluates: it returns, in order, the decoded
    candidates that are JSON objects with at least one key;
    [total_received] grows by the number of candidates, [total_parsed]
    by the number of records returned and [total_invalid] by the number
    of the other candidates; [_parse_json] yields a record exactly for
    a text that [json.loads] decodes to an object with a key, and [None]
    for any other text, in particular for a text on which [json.loads]
    raises, whatever it raises: a decode error, or the [RecursionError]
    or [ValueError] of a limit of the interpreter, which the clause for
    [Exception] catches. *)
Theorem add_chunk_classification (self : state) (text : str) :
  let cands := candidates (buffer self ++ text) in
  exists self',
    add_chunk text self = (Ok (records_of cands), self') /\
    total_received self' = total_received self + List.length cands /\
    total_parsed self' = total_parsed self + List.length (records_of cands) /\
    total_invalid self' = total_invalid self + count_rejected cands /\
    List.length (records_of cands) + count_rejected cands = List.length cands /\
    (forall c st, exists o,
        _parse_json c st = (Ok o, st) /\
        (forall d, o = Some d <-> json_loads c = Ok (JObj d) /\ d <> []) /\
        (forall e, json_loads c = Raise e -> o = None)).
Proof.
  intros cands. eexists. split; [apply add_chunk_run|]. cbn [counted].
  repeat split; try reflexivity.
  - apply records_rejected_length.
  - intros c st. exists (accepted c). split; [apply parse_json_run|].
    split.
    + intros d. unfold accepted.
      destruct (json_loads c) as [v|e];
        [|split; [discriminate | intros [H _]; discriminate]].
      destruct v as [| | | | | |[|kv d']];
        try (split; [discriminate | intros [H _]; discriminate]).
      * split; [discriminate | intros [H Hd]; inversion H; subst; now elim Hd].
      * split.
        -- intros H; inversion H; subst. split; [reflexivity | discriminate].
        -- intros [H _]; inversion H; subst. reflexivity.
    + intros e He. unfold accepted. now rewrite He.
Qed.

End ExtractorClaims.

(* ===================================================================== *)
(** * Claims about the extractor statistics *)
(* ===================================================================== *)

Section ExtractorStats.
Import DataProcessor.

Lemma Qnat_pos (n : nat) : 0 < n -> (0 < Qnat n)%Q.
Proof.
  intros H. unfold Qnat, Qlt. simpl. lia.
Qed.

(** C10, as amended.  [get_stats] leaves the extractor as it is and
    reports the three counters, the length of the buffer, and a parse
    rate in percent: zero when nothing was received, and otherwise
    [total_parsed / total_received * 100]. *)
Theorem get_stats_parse_rate_percent (self : state) :
  exists stats,
    get_stats self = (Ok stats, self) /\
    st_total_received stats = total_received self /\
    st_total_parsed stats = total_parsed self /\
    st_total_invalid stats = total_invalid self /\
    st_buffer_size stats = List.length (buffer self) /\
    (total_received self = 0 -> st_parse_rate stats = 0%Q) /\
    (0 < total_received self ->
       (st_parse_rate stats
        == Qnat (total_parsed self) / Qnat (total_received self) * 100)%Q /\
       (st_parse_rate stats * Qnat (total_received self)
        == 100 * Qnat (total_parsed self))%Q).
Proof.
  eexists. split; [reflexivity|].
  cbn [st_total_received st_total_parsed st_total_invalid st_buffer_size st_parse_rate].
  repeat (split; [reflexivity|]). split.
  - intros H. now rewrite H.
  - intros Hlt. pose proof (Qnat_pos Hlt) as Hq.
    destruct (Nat.ltb_spec 0 (total_received self)) as [_|]; [|lia].
    split; [reflexivity|].
    field. intros Hz. rewrite Hz in Hq. now apply Qlt_irrefl in Hq.
Qed.

(** C10, as stated, fails: after 10 candidates received and 7 parsed the
    rate reported is 70, not the quotient 7/10. *)
Lemma get_stats_parse_rate_counterexample :
  let self := {| buffer := []; total_received := 10;
                 total_parsed := 7; total_invalid := 3 |} in
  exists stats,
    get_stats self = (Ok stats, self) /\
    (st_parse_rate stats == 70)%Q /\
    ~ (st_parse_rate stats == Qnat 7 / Qnat 10)%Q.
Proof.
  eexists. split; [reflexivity|]. split; vm_compute; congruence.
Qed.

End ExtractorStats.

(* ===================================================================== *)
(** * Claims about the sink client *)
(* ===================================================================== *)

Section Client.
Import ThingsBoardClient.

(** What one call of [send_telemetry] does, by outcome of the request. *)
Lemma send_telemetry_response (data : Dict) (timeout : nat) (r : Response)
  (now : Q) (self : state) :
  send_telemetry data timeout (Ok r) now self
  = if ok r
    then (Ok true, {| total_sent := total_sent self + 1;
                      total_failed := total_failed self;
                      last_send_time := Some now |})
    else (Ok false, {| total_sent := total_sent self;
                       total_failed := total_failed self + 1;
                       last_send_time := Some now |}).
Proof.
  unfold send_telemetry, try_except, bind, lift_result, modify, ret.
  now destruct (ok r).
Qed.


Lemma send_telemetry_interrupt (data : Dict) (timeout : nat) (now : Q) (self : state) :
  send_telemetry data timeout (Raise KeyboardInterrupt) now self
  = (Raise KeyboardInterrupt, self).
Proof. reflexivity. Qed.


(** C6: the code at a response that is not 2xx and that
    [Response.ok] accepts.  With status 304, [send_telemetry] returns
    true and increments [total_sent]; [total_failed] is unchanged. *)
Theorem send_telemetry_non_2xx_accepted (data : Dict) (now : Q) :
  let r := {| status_code := 304; text := [] |} in
  is_2xx r = false /\
  send_telemetry data 8 (Ok r) now init
  = (Ok true, {| total_sent := 1; total_failed := 0; last_send_time := Some now |}).
Proof. split; reflexivity. Qed.

(** C8, as amended.  [last_send_time] is overwritten whenever the
    request returns a response, whatever its status, and is left as it
    was exactly when the request raises. *)
Theorem last_send_time_frame (data : Dict) (timeout : nat)
  (post : result Response) (now : Q) (self : state) :
  last_send_time (snd (send_telemetry data timeout post now self))
  = match post with
    | Ok _ => Some now
    | Raise _ => last_send_time self
    end.
Proof.
  destruct post as [r|e].
  - rewrite send_telemetry_response. now destruct (ok r).
  - destruct e; reflexivity.
Qed.

(** C8, as stated, fails: a response with status 500 makes the send
    fail and still overwrites the timestamp. *)
Lemma last_send_time_counterexample :
  let self := {| total_sent := 3; total_failed := 0; last_send_time := Some 100%Q |} in
  let r := {| status_code := 500; text := [] |} in
  let run := send_telemetry [] 8 (Ok r) 250%Q self in
  is_2xx r = false /\
  fst run = Ok false /\
  last_send_time (snd run) = Some 250%Q /\
  last_send_time (snd run) <> last_send_time self.
Proof. repeat split. discriminate. Qed.

End Client.

(* ===================================================================== *)
(** * Claims about the rate limiter *)
(* ===================================================================== *)

Section Limiter.
Import RateLimiter.

Lemma sleep_total_app (a b : list event) :
  (sleep_total (a ++ b) == sleep_total a + sleep_total b)%Q.
Proof.
  induction a as [|e a IH]; simpl.
  - lra.
  - destruct e; try exact IH. rewrite IH. lra.
Qed.

Lemma Qpositive_true (q : Q) : Qpositive q = true -> (0 < q)%Q.
Proof.
  unfold Qpositive. intros H. apply negb_true_iff in H.
  apply Qnot_le_lt. intros Hle. apply Qle_bool_iff in Hle. congruence.
Qed.





End Limiter.

(* ===================================================================== *)
(** * Claims about the streaming loop *)
(* ===================================================================== *)

Section Loop.
Context {interp : Interpreter}.
Import Bridge.








(** A delivery touches neither the extractor nor the monitor, however
    it ends. *)
Lemma deliver_frame (cfg : Settings) (env : SendEnv) (data : Dict) (b : state) :
  data_processor (snd (deliver cfg env data b)) = data_processor b /\
  serial_monitor (snd (deliver cfg env data b)) = serial_monitor b.
Proof.
  unfold deliver, call_wait_if_needed, call_send_telemetry, print, on.
  unfold bind, modify, get, ret, lift_result.
  destruct (RateLimiter.wait_if_needed (lag env) (rate_limiter b) (world b))
    as [rl w1].
  destruct (PRINT_PREVIEW cfg); [destruct (preview_print env) as [[]|e0]|];
    cbn [set_world set_rate_limiter set_tb_client world tb_client rate_limiter
         message_count serial_monitor data_processor snd];
    try (split; reflexivity);
    match goal with
    | |- context [ThingsBoardClient.send_telemetry ?d ?t ?p ?n ?c] =>
        destruct (ThingsBoardClient.send_telemetry d t p n c) as [[[|]|e1] tb']
    end;
    cbn [set_world set_rate_limiter set_tb_client incr_message_count world
         tb_client rate_limiter message_count serial_monitor data_processor snd];
    try (split; reflexivity);
    destruct (status_print env) as [[]|e2]; split; reflexivity.
Qed.

Lemma deliver_all_frame (cfg : Settings) (sends : nat -> SendEnv) (records : list Dict) :
  forall i b,
  data_processor (snd (deliver_all cfg sends i records b)) = data_processor b /\
  serial_monitor (snd (deliver_all cfg sends i records b)) = serial_monitor b.
Proof.
  induction records as [|d records IH]; intros i b.
  - split; reflexivity.
  - cbn [deliver_all]. unfold bind.
    destruct (deliver_frame cfg (sends i) d b) as [Hd Hm].
    destruct (deliver cfg (sends i) d b) as [[[]|e] b1]; cbn [snd] in *.
    + destruct (IH (S i) b1) as [Hd' Hm']. now rewrite Hd', Hm'.
    + now split.
Qed.

(** What a tick does to the buffer of the extractor: the new content is
    appended to whatever the buffer holds, be the visible text longer
    or shorter than on the previous tick. *)
Lemma tick_buffer (cfg : Settings) (env : TickEnv) (text : str) (b : state) :
  inner_text env = Ok text ->
  let full := TinkerCADAutomation.replace_cr (TinkerCADAutomation.replace_crlf text) in
  let new_content :=
    slice_from
      (if List.length full <? SerialMonitor.last_text_length (serial_monitor b)
       then 0 else SerialMonitor.last_text_length (serial_monitor b)) full in
  DataProcessor.buffer (data_processor (snd (tick cfg env b)))
  = match new_content with
    | [] => DataProcessor.buffer (data_processor b)
    | _ :: _ => remainder (DataProcessor.buffer (data_processor b) ++ new_content)
    end.
Proof.
  intros Htext full new_content. unfold tick. rewrite Htext.
  unfold TinkerCADAutomation.read_serial_output, SerialMonitor.get_new_content,
    try_except, on, poll_sleep.
  unfold bind, modify, get, ret, lift_result.
  cbn [SerialMonitor.last_text_length SerialMonitor.total_reads].
  fold full.
  destruct (List.length full <? SerialMonitor.last_text_length (serial_monitor b));
    cbn [SerialMonitor.last_text_length SerialMonitor.total_reads
         set_serial_monitor serial_monitor data_processor];
    fold new_content;
    (destruct new_content as [|c rest] eqn:Hnew;
     [ destruct (poll env) as [[]|e]; reflexivity
     | rewrite add_chunk_run;
       cbn [set_data_processor set_world data_processor world];
       match goal with
       | |- context [deliver_all ?c ?s ?i ?r ?x] =>
           destruct (deliver_all_frame c s r i x) as [Hd _];
           destruct (deliver_all c s i r x) as [[[]|e] b1]
       end;
       cbn [snd] in Hd |- *;
       [ destruct (poll env) as [[]|e];
         cbn [snd set_world data_processor]; rewrite Hd; reflexivity
       | rewrite Hd; reflexivity ] ]).
Qed.

End Loop.

Section LoopLeft.
Context {interp : Interpreter}.
Import Bridge.

Lemma streaming_loop_app (cfg : Settings) (before after : list TickEnv) :
  forall b,
  streaming_loop cfg (before ++ after) b
  = match streaming_loop cfg before b with
    | (Ok _, b1) => streaming_loop cfg after b1
    | (Raise e, b1) => (Raise e, b1)
    end.
Proof.
  induction before as [|env before IH]; intros b.
  - reflexivity.
  - cbn [app streaming_loop]. unfold bind.
    destruct (tick cfg env b) as [[[]|e] b1]; [apply IH | reflexivity].
Qed.

(** The [try] statement after iterations that raise nothing. *)
Lemma run_streaming_after (cfg : Settings) (before after : list TickEnv) :
  forall b b1,
  streaming_loop cfg before b = (Ok tt, b1) ->
  run_streaming cfg (before ++ after) b = run_streaming cfg after b1.
Proof.
  induction before as [|env before IH]; intros b b1 H.
  - inversion H. reflexivity.
  - cbn [app streaming_loop run_streaming] in H |- *. unfold bind in H.
    destruct (tick cfg env b) as [[[]|e] b']; [now apply IH | discriminate].
Qed.

(** C2, as amended.  An exception (not an interrupt) raised while a
    tick is processed is caught by the handler that encloses the whole
    loop, not one tick: it is not propagated, but the loop is left; no
    later tick is processed, whatever the later ticks would have found,
    and the [finally] clause runs next.  The [try] statement is then
    left normally, unless the [finally] clause raises. *)
Theorem tick_exception_ends_streaming
  (cfg : Settings) (before after : list TickEnv) (env : TickEnv)
  (b b1 b2 : state) (e : exn) :
  streaming_loop cfg before b = (Ok tt, b1) ->
  tick cfg env b1 = (Raise e, b2) ->
  is_Exception e = true ->
  run_streaming cfg (before ++ env :: after) b
  = (match closing env with
     | Ok _ => FAILED e
     | Raise e' => RAISED e'
     end,
     set_world (emit EvCleanup (world b2)) b2).
Proof.
  intros Hbefore Htick He.
  rewrite (@run_streaming_after cfg before (env :: after) b b1 Hbefore).
  cbn [run_streaming].
  rewrite Htick. unfold leave. rewrite He.
  unfold cleanup, bind, modify, lift_result.
  destruct (closing env) as [[]|e']; reflexivity.
Qed.

End LoopLeft.

Section LoopRuns.
Import Bridge.
#[local] Existing Instance Sample.python.



Lemma tick_exception_ends_streaming_witness :
  exists b1 b2,
    run_streaming Sample.cfg
      ([Sample.shows (js "boot") (Sample.answered 200)]
       ++ Sample.shows (js "boot{'a':1}") Sample.print_raises
       :: [Sample.shows (js "boot{'a':1}{'b':2}") (Sample.answered 200)])
      Sample.b0
    = (FAILED OtherException, set_world (emit EvCleanup (world b2)) b2) /\
    streaming_loop Sample.cfg [Sample.shows (js "boot") (Sample.answered 200)]
      Sample.b0 = (Ok tt, b1) /\
    tick Sample.cfg (Sample.shows (js "boot{'a':1}") Sample.print_raises) b1
    = (Raise OtherException, b2).
Proof.
  eexists. eexists.
  assert (H1 : streaming_loop Sample.cfg
                 [Sample.shows (js "boot") (Sample.answered 200)] Sample.b0
               = (Ok tt, snd (streaming_loop Sample.cfg
                    [Sample.shows (js "boot") (Sample.answered 200)] Sample.b0)))
    by (vm_compute; reflexivity).
  assert (H2 : tick Sample.cfg (Sample.shows (js "boot{'a':1}") Sample.print_raises)
                 (snd (streaming_loop Sample.cfg
                    [Sample.shows (js "boot") (Sample.answered 200)] Sample.b0))
               = (Raise OtherException,
                  snd (tick Sample.cfg
                         (Sample.shows (js "boot{'a':1}") Sample.print_raises)
                         (snd (streaming_loop Sample.cfg
                            [Sample.shows (js "boot") (Sample.answered 200)]
                            Sample.b0)))))
    by (vm_compute; reflexivity).
  split; [|split; [exact H1 | exact H2]].
  exact (@tick_exception_ends_streaming Sample.python Sample.cfg
           [Sample.shows (js "boot") (Sample.answered 200)]
           [Sample.shows (js "boot{'a':1}{'b':2}") (Sample.answered 200)]
           (Sample.shows (js "boot{'a':1}") Sample.print_raises)
           Sample.b0 _ _ OtherException H1 H2 eq_refl).
Defined.

(** C2, as stated, fails: the preview [print] of the second tick
    raises; the loop is left with status [FAILED], the third tick, whose
    text holds a further record, is never processed (two reads, no
    request), and the process ends. *)
Lemma tick_exception_counterexample :
  let ticks := [Sample.shows (js "boot") (Sample.answered 200);
                Sample.shows (js "boot{'a':1}") Sample.print_raises;
                Sample.shows (js "boot{'a':1}{'b':2}") (Sample.answered 200)] in
  let run := run_streaming Sample.cfg ticks Sample.b0 in
  fst run = FAILED OtherException /\
  fst run <> STREAMING /\
  SerialMonitor.total_reads (serial_monitor (snd run)) = 2 /\
  filter is_post (trace (world (snd run))) = [] /\
  fst (Main.main Sample.config (Sample.start 200) ticks Sample.w0) = Main.Exit 0.
Proof.
  vm_compute. repeat split. discriminate.
Qed.

(** C3: the code at a tick on which the visible text got shorter.  The
    first tick leaves the start of an object pending in the buffer of
    the extractor; on the second tick the widget shows a shorter text,
    the monitor returns the whole of it as new content, and the loop
    feeds it to the extractor without a call of [clear_buffer]: the
    stale text and the new one form one rejected candidate and the
    record of the new text is lost.  With the buffer cleared first, the
    record is returned. *)
Theorem shrink_tick_does_not_clear_buffer :
  let t1 := Sample.shows (js "boot {'a':") (Sample.answered 200) in
  let t2 := Sample.shows (js "{'b':2}") (Sample.answered 200) in
  let after1 := snd (streaming_loop Sample.cfg [t1] Sample.b0) in
  let after2 := snd (streaming_loop Sample.cfg [t1; t2] Sample.b0) in
  DataProcessor.buffer (data_processor after1) = js "boot {'a':" /\
  SerialMonitor.last_text_length (serial_monitor after1) = 10 /\
  fst (SerialMonitor.get_new_content (Some (js "{'b':2}")) (serial_monitor after1))
  = Ok (js "{'b':2}") /\
  fst (streaming_loop Sample.cfg [t1; t2] Sample.b0) = Ok tt /\
  DataProcessor.total_received (data_processor after2) = 1 /\
  DataProcessor.total_invalid (data_processor after2) = 1 /\
  DataProcessor.total_parsed (data_processor after2) = 0 /\
  filter is_post (trace (world after2)) = [] /\
  fst ((DataProcessor.clear_buffer ;; DataProcessor.add_chunk (js "{'b':2}"))%monad
         (data_processor after1))
  = Ok [[(js "b", JInt 2)]].
Proof.
  vm_compute. repeat split.
Qed.

End LoopRuns.

(* ===================================================================== *)
(** * Sample runs of the components *)
(* ===================================================================== *)

Section Runs.
#[local] Existing Instance Sample.python.

Example json_loads_object :
  json_loads (js "{'a': 1, 'b': [true, null, -2.5e3], 'a': 'xA'}")
  = Ok (JObj [(js "a", JStr (py "xA"));
              (js "b", JArr [JBool true; JNull; JFloat (py "-2.5e3")])]).
Proof. vm_compute. reflexivity. Qed.

Example json_loads_truncated :
  json_loads (js "{'a':{'b':1}") = Raise JSONDecodeError.
Proof. vm_compute. reflexivity. Qed.

Example add_chunk_two_objects :
  DataProcessor.add_chunk (js "{'a':1}{'b':2}") DataProcessor.init
  = (Ok [[(js "a", JInt 1)]; [(js "b", JInt 2)]],
     {| DataProcessor.buffer := []; DataProcessor.total_received := 2;
        DataProcessor.total_parsed := 2; DataProcessor.total_invalid := 0 |}).
Proof. vm_compute. reflexivity. Qed.

Example add_chunk_split_object :
  (r1 <- DataProcessor.add_chunk (js "{'a':1}{'b'") ;;
   r2 <- DataProcessor.add_chunk (js ":2}") ;;
   ret (r1, r2)) DataProcessor.init
  = (Ok ([[(js "a", JInt 1)]], [[(js "b", JInt 2)]]),
     {| DataProcessor.buffer := []; DataProcessor.total_received := 2;
        DataProcessor.total_parsed := 2; DataProcessor.total_invalid := 0 |}).
Proof. vm_compute. reflexivity. Qed.

Example add_chunk_empty_object :
  DataProcessor.add_chunk (js "{}") DataProcessor.init
  = (Ok [],
     {| DataProcessor.buffer := []; DataProcessor.total_received := 1;
        DataProcessor.total_parsed := 0; DataProcessor.total_invalid := 1 |}).
Proof. vm_compute. reflexivity. Qed.

Example add_chunk_junk_then_object :
  fst (DataProcessor.feed [js "not json{"; js "'a':1}"] DataProcessor.init)
  = Ok [[(js "a", JInt 1)]].
Proof. vm_compute. reflexivity. Qed.

Example add_chunk_brace_in_string :
  DataProcessor.add_chunk (js "{'a':'}'}") DataProcessor.init
  = (Ok [],
     {| DataProcessor.buffer := js "'}"; DataProcessor.total_received := 1;
        DataProcessor.total_parsed := 0; DataProcessor.total_invalid := 1 |}).
Proof. vm_compute. reflexivity. Qed.

Example clear_buffer_then_add_chunk :
  (DataProcessor.add_chunk (js "{'a'") ;;
   DataProcessor.clear_buffer ;;
   DataProcessor.add_chunk (js "{'b':2}")) DataProcessor.init
  = (Ok [[(js "b", JInt 2)]],
     {| DataProcessor.buffer := []; DataProcessor.total_received := 1;
        DataProcessor.total_parsed := 1; DataProcessor.total_invalid := 0 |}).
Proof. vm_compute. reflexivity. Qed.

Example send_telemetry_200 :
  ThingsBoardClient.send_telemetry [(js "a", JInt 1)] 8
    (Ok (Sample.response 200)) 5 ThingsBoardClient.init
  = (Ok true, {| ThingsBoardClient.total_sent := 1;
                 ThingsBoardClient.total_failed := 0;
                 ThingsBoardClient.last_send_time := Some 5%Q |}).
Proof. reflexivity. Qed.

Example send_telemetry_timeout :
  ThingsBoardClient.send_telemetry [(js "a", JInt 1)] 8
    (Raise Timeout) 5 ThingsBoardClient.init
  = (Ok false, {| ThingsBoardClient.total_sent := 0;
                  ThingsBoardClient.total_failed := 1;
                  ThingsBoardClient.last_send_time := None |}).
Proof. reflexivity. Qed.

Example client_stats_initial :
  ThingsBoardClient.st_success_rate
    (match ThingsBoardClient.get_stats ThingsBoardClient.init with
     | (Ok st, _) => st
     | (Raise _, _) => {| ThingsBoardClient.st_total_sent := 0;
                          ThingsBoardClient.st_total_failed := 0;
                          ThingsBoardClient.st_success_rate := 1;
                          ThingsBoardClient.st_last_send_time := None |}
     end) = 0%Q.
Proof. reflexivity. Qed.

(** An interrupt during the poll sleep ends the loop through the
    [KeyboardInterrupt] handler. *)
Example interrupt_stops :
  fst (Bridge.run_streaming Sample.cfg
         [{| Bridge.inner_text := Ok (js "boot");
             Bridge.sends := fun _ => Sample.answered 200;
             Bridge.poll := Raise KeyboardInterrupt;
             Bridge.stats_print := Ok tt;
             Bridge.closing := Ok tt |}] Sample.b0)
  = Bridge.STOPPED.
Proof. vm_compute. reflexivity. Qed.

End Runs.

(* ===================================================================== *)
(** * Further properties of the extractor *)
(* ===================================================================== *)

Section ExtractorMore.
Context {interp : Interpreter}.
Import DataProcessor.

(** X1.  Chunking invariance for every input: two ways of cutting the
    same text into chunks, fed to the same extractor whose buffer holds
    no complete span, return the same records in the same order, all
    calls together, and end in the same state. *)
Theorem feed_chunking_invariant (self : state) (chunks1 chunks2 : list str) :
  finditer (buffer self) = [] ->
  List.concat chunks1 = List.concat chunks2 ->
  feed chunks1 self = feed chunks2 self.
Proof.
  intros Hb Hc. rewrite !feed_one_call by assumption. now rewrite Hc.
Qed.

(** What a sequence of calls does to the counters. *)
Lemma feed_counts (chunks : list str) : forall self,
  exists rs self' n,
    feed chunks self = (Ok rs, self') /\
    List.length rs <= n /\
    total_received self' = total_received self + n /\
    total_parsed self' = total_parsed self + List.length rs /\
    total_invalid self' + List.length rs = total_invalid self + n.
Proof.
  induction chunks as [|c cs IH]; intros self.
  - exists [], self, 0. simpl. unfold ret. repeat split; lia.
  - cbn [feed]. unfold bind at 1. rewrite add_chunk_run.
    set (cands := candidates (buffer self ++ c)).
    destruct (IH (counted cands (remainder (buffer self ++ c)) self))
      as (rs & self' & n & Hf & Hn & Hr & Hp & Hi).
    cbn [counted total_received total_parsed total_invalid] in Hr, Hp, Hi.
    pose proof (records_rejected_length cands) as Hl.
    exists (records_of cands ++ rs), self', (List.length cands + n).
    unfold bind. rewrite Hf. unfold ret. rewrite length_app.
    repeat split; lia.
Qed.

(** X2.  Calls of [add_chunk] never raise and never decrease a counter;
    [total_parsed] grows by the number of records returned, and the
    relation [total_received = total_parsed + total_invalid], true of a
    fresh extractor, is kept. *)
Theorem feed_counters (chunks : list str) (self : state) :
  exists rs self',
    feed chunks self = (Ok rs, self') /\
    total_parsed self' = total_parsed self + List.length rs /\
    total_received self <= total_received self' /\
    total_invalid self <= total_invalid self' /\
    total_received self' + total_parsed self + total_invalid self
    = total_parsed self' + total_invalid self' + total_received self.
Proof.
  destruct (feed_counts chunks self) as (rs & self' & n & Hf & Hn & Hr & Hp & Hi).
  exists rs, self'. split; [exact Hf|]. clear Hf.
  split; [exact Hp|]. split; [lia|]. split; lia.
Qed.

Lemma finditer_from_no_rbrace (b : str) : forall pos start,
  no_rbrace b -> finditer_from b pos start = [].
Proof.
  induction b as [|c b IH]; intros pos start H; simpl; [reflexivity|].
  inversion H as [|? ? Hc Hb]; subst.
  destruct start; [rewrite Hc|destruct (N.eqb c LBRACE)]; now apply IH.
Qed.

Lemma finditer_from_app_nil (a : str) : forall b pos start,
  finditer_from a pos start = [] -> no_rbrace b ->
  finditer_from (a ++ b) pos start = [].
Proof.
  induction a as [|c a IH]; intros b pos start Ha Hb.
  - now apply finditer_from_no_rbrace.
  - simpl in Ha |- *. destruct start as [i|].
    + destruct (N.eqb c RBRACE); [discriminate | now apply IH].
    + destruct (N.eqb c LBRACE); now apply IH.
Qed.

(** X3.  Text without a closing brace (the empty text, the start of an
    object) completes no span: fed to an extractor whose buffer holds no
    complete span, it is appended to the buffer as it is, nothing is
    returned and no counter moves. *)
Theorem add_chunk_partial_text (self : state) (text : str) :
  finditer (buffer self) = [] ->
  no_rbrace text ->
  add_chunk text self = (Ok [], set_buffer (buffer self ++ text) self).
Proof.
  intros Hb Ht. rewrite add_chunk_run. unfold candidates, remainder.
  unfold finditer in *. rewrite finditer_from_app_nil by assumption.
  simpl. f_equal. destruct self. unfold counted, count_rejected, set_buffer.
  simpl. now rewrite !Nat.add_0_r.
Qed.

(** X4.  After [clear_buffer] the extractor returns what a fresh one
    returns and keeps the same buffer as a fresh one, whatever it held;
    the counters are not reset, they go on from their values. *)
Theorem clear_buffer_fresh (self : state) (text : str) :
  exists rs self' fresh',
    (clear_buffer ;; add_chunk text)%monad self = (Ok rs, self') /\
    add_chunk text init = (Ok rs, fresh') /\
    buffer self' = buffer fresh' /\
    total_received self' = total_received self + total_received fresh' /\
    total_parsed self' = total_parsed self + total_parsed fresh' /\
    total_invalid self' = total_invalid self + total_invalid fresh'.
Proof.
  unfold bind, clear_buffer, modify. rewrite !add_chunk_run.
  cbn [buffer set_buffer init app].
  eexists. eexists. eexists. split; [reflexivity|]. split; [reflexivity|].
  cbn [counted buffer total_received total_parsed total_invalid set_buffer].
  repeat split; reflexivity.
Qed.

End ExtractorMore.

(* ===================================================================== *)
(** * Runs of the extractor *)
(* ===================================================================== *)

Section ExtractorRuns.
Import DataProcessor.
#[local] Existing Instance Sample.python.

Ltac brace_free :=
  unfold no_lbrace, no_rbrace; vm_compute; repeat constructor.

Ltac spanning :=
  match goal with
  | |- span_shape ?o =>
      exists (removelast (tl o));
      split; [vm_compute; reflexivity | brace_free]
  end.

Lemma chunking_invariance_flat_objects_witness :
  exists rs self',
    feed [js "boot {'a'"; js ":1} ok {'msg':'a{b"; js "'}"; js " end"] init
      = (Ok rs, self') /\
    Forall2 (fun it r => json_loads (fst it) = Ok (JObj r) /\ r <> [])
            [(js "{'a':1}", js " ok "); (js "{'msg':'a{b'}", js " end")] rs.
Proof.
  apply (@chunking_invariance_flat_objects Sample.python (js "boot ")
           [(js "{'a':1}", js " ok "); (js "{'msg':'a{b'}", js " end")]
           [js "boot {'a'"; js ":1} ok {'msg':'a{b"; js "'}"; js " end"]).
  - split; brace_free.
  - repeat (apply Forall_cons || apply Forall_nil); cbn [fst snd];
      (split; [spanning | split; brace_free]).
  - repeat (apply Forall_cons || apply Forall_nil);
      eexists; eexists; vm_compute; reflexivity.
  - reflexivity.
Defined.

(** C1, as stated, fails.  A valid, non-empty JSON object with a closing
    brace inside a string value, fed in one chunk to a fresh extractor,
    is not returned; neither is one that holds a nested object.  And a
    valid, non-empty JSON object without any brace inside is not
    returned either when [json.loads] refuses it: an integer of 4301
    digits is decoded by an interpreter without limit on the digits and
    raises [ValueError] with the limit of 4300 digits. *)
Lemma chunking_invariance_counterexample :
  let o1 := js "{'a':'}'}" in
  let o2 := js "{'a':{'b':1}}" in
  let o3 := js "{'n':" ++ repeat (chr "7") 4301 ++ js "}" in
  json_loads o1 = Ok (JObj [(js "a", JStr (js "}"))]) /\
  List.concat [o1] = stream [] [(o1, [])] /\
  fst (feed [o1] init) = Ok [] /\
  json_loads o2 = Ok (JObj [(js "a", JObj [(js "b", JInt 1)])]) /\
  List.concat [o2] = stream [] [(o2, [])] /\
  fst (feed [o2] init) = Ok [] /\
  (exists z, json_loads (I := Sample.python_unlimited_digits) o3
             = Ok (JObj [(js "n", JInt z)])) /\
  json_loads o3 = Raise ValueError /\
  List.concat [o3] = stream [] [(o3, [])] /\
  fst (feed [o3] init) = Ok [].
Proof.
  vm_compute. repeat split. eexists. reflexivity.
Qed.

Lemma feed_chunking_invariant_witness :
  feed [js "x{'a':1}{'b"; js "':{'c':2}"; js "}{'d':3"] init
  = feed [js "x{'a'"; js ":1}{'b':{'c':2}}{'d"; []; js "':3"] init.
Proof.
  apply (@feed_chunking_invariant Sample.python init
           [js "x{'a':1}{'b"; js "':{'c':2}"; js "}{'d':3"]
           [js "x{'a'"; js ":1}{'b':{'c':2}}{'d"; []; js "':3"]).
  - reflexivity.
  - reflexivity.
Defined.

Lemma add_chunk_partial_text_witness :
  add_chunk (js "':[1,2") (snd (add_chunk (js "{'a':1} {'b") init))
  = (Ok [], set_buffer (buffer (snd (add_chunk (js "{'a':1} {'b") init)) ++ js "':[1,2")
              (snd (add_chunk (js "{'a':1} {'b") init))).
Proof.
  apply (@add_chunk_partial_text Sample.python (snd (add_chunk (js "{'a':1} {'b") init)) (js "':[1,2")).
  - vm_compute. reflexivity.
  - unfold no_rbrace. vm_compute. repeat constructor.
Defined.

(** A candidate nested deeper than the interpreter allows, and one with
    an integer of more digits than it converts, make [json.loads] raise
    [RecursionError] and [ValueError]; [_parse_json] catches both and
    the candidate is counted as invalid. *)
Example add_chunk_interpreter_limits :
  let deep := js "{'a':" ++ repeat (chr "[") 1000 ++ repeat (chr "]") 1000 ++ js "}" in
  let long := js "{'n':" ++ repeat (chr "7") 4301 ++ js "}" in
  json_loads deep = Raise RecursionError /\
  json_loads long = Raise ValueError /\
  add_chunk (deep ++ long) init
  = (Ok [], {| buffer := []; total_received := 2;
               total_parsed := 0; total_invalid := 2 |}).
Proof. vm_compute. repeat split. Qed.

End ExtractorRuns.

(* ===================================================================== *)
(** * The records: keys, statistics, validation *)
(* ===================================================================== *)

Section Records.
Context {interp : Interpreter}.
Import DataProcessor.

Lemma str_eqb_eq (a : str) : forall b, str_eqb a b = true <-> a = b.
Proof.
  induction a as [|x a IH]; intros [|y b]; simpl; split; intros H;
    try reflexivity; try discriminate.
  - apply andb_true_iff in H. destruct H as [Hx Ha].
    apply N.eqb_eq in Hx. apply IH in Ha. now subst.
  - inversion H; subst. rewrite N.eqb_refl. simpl. now apply IH.
Qed.

Lemma dict_set_keys (k : str) (v : JValue) (d : Dict) :
  forall k', In k' (map fst (dict_set k v d)) <-> k' = k \/ In k' (map fst d).
Proof.
  induction d as [|[k0 v0] d IH]; intros k'; simpl.
  - intuition.
  - destruct (str_eqb k k0) eqn:E; simpl.
    + apply str_eqb_eq in E. subst. intuition.
    + rewrite IH. intuition.
Qed.

Lemma dict_set_nodup (k : str) (v : JValue) (d : Dict) :
  NoDup (map fst d) -> NoDup (map fst (dict_set k v d)).
Proof.
  induction d as [|[k0 v0] d IH]; intros H; simpl.
  - constructor; [intros [] | constructor].
  - inversion H as [|? ? Hn Hd]; subst.
    destruct (str_eqb k k0) eqn:E; simpl.
    + now constructor.
    + constructor; [|now apply IH].
      rewrite dict_set_keys. intros [->|Hin]; [|contradiction].
      assert (Hk : str_eqb k k = true) by now apply str_eqb_eq.
      congruence.
Qed.

Lemma dict_of_pairs_nodup (pairs : list (str * JValue)) :
  NoDup (map fst (dict_of_pairs pairs)).
Proof.
  unfold dict_of_pairs.
  assert (H : forall d, NoDup (map fst d) ->
                NoDup (map fst (fold_left
                  (fun d kv => dict_set (fst kv) (snd kv) d) pairs d))).
  { induction pairs as [|kv pairs IH]; intros d Hd; simpl; [assumption|].
    apply IH. now apply dict_set_nodup. }
  apply H. constructor.
Qed.

Lemma object_members_distinct (fuel : nat) : forall d s acc v r,
  object_members fuel d s acc = POk v r -> distinct_keys v.
Proof.
  induction fuel as [|f IH]; intros d s acc v r; [discriminate|].
  cbn [object_members].
  destruct s as [|c s1]; [discriminate|].
  destruct (N.eqb c DQUOTE); [|discriminate].
  destruct (scanstring s1 []) as [[key s2]|]; [|discriminate].
  destruct (skip_ws s2) as [|c2 s3]; [discriminate|].
  destruct (N.eqb c2 (chr ":")); [|discriminate].
  destruct (scan_once f d (skip_ws s3)) as [v' s4| |e'|]; try discriminate.
  destruct (skip_ws s4) as [|c4 s5]; [discriminate|].
  destruct (N.eqb c4 RBRACE).
  - intros H; inversion H; subst. simpl. apply dict_of_pairs_nodup.
  - destruct (N.eqb c4 (chr ",")); [|discriminate]. apply IH.
Qed.

Lemma array_items_distinct (fuel : nat) : forall d s acc v r,
  array_items fuel d s acc = POk v r -> distinct_keys v.
Proof.
  induction fuel as [|f IH]; intros d s acc v r; [discriminate|].
  cbn [array_items].
  destruct (scan_once f d s) as [v' s1| |e'|]; try discriminate.
  destruct (skip_ws s1) as [|c s2]; [discriminate|].
  destruct (N.eqb c (chr "]")).
  - intros H; inversion H; subst. exact I.
  - destruct (N.eqb c (chr ",")); [|discriminate]. apply IH.
Qed.

Lemma scan_number_distinct (s : str) (v : JValue) (r : str) :
  scan_number s = Some (Ok v, r) -> distinct_keys v.
Proof.
  unfold scan_number.
  destruct (scan_integer s) as [[[neg ds] r0]|]; [|discriminate].
  destruct (scan_frac r0) as [frac r1]. destruct (scan_exp r1) as [ex r2].
  destruct frac, ex; try destruct (too_many_digits ds);
    intros H; inversion H; subst; exact I.
Qed.

Lemma scan_once_distinct (fuel d : nat) (s : str) (v : JValue) (r : str) :
  scan_once fuel d s = POk v r -> distinct_keys v.
Proof.
  destruct fuel as [|f]; [discriminate|]. cbn [scan_once].
  destruct s as [|c s1]; [discriminate|].
  destruct (N.eqb c DQUOTE).
  { destruct (scanstring s1 []) as [[v' r']|]; [|discriminate].
    intros H; inversion H; subst; exact I. }
  destruct (N.eqb c LBRACE).
  { destruct d as [|d]; [discriminate|].
    destruct (skip_ws s1) as [|c1 r1]; [discriminate|].
    destruct (N.eqb c1 RBRACE).
    - intros H; inversion H; subst. constructor.
    - apply object_members_distinct. }
  destruct (N.eqb c (chr "[")).
  { destruct d as [|d]; [discriminate|].
    destruct (skip_ws s1) as [|c1 r1]; [discriminate|].
    destruct (N.eqb c1 (chr "]")).
    - intros H; inversion H; subst. exact I.
    - apply array_items_distinct. }
  destruct (strip_prefix (py "null") (c :: s1));
    [intros H; inversion H; subst; exact I|].
  destruct (strip_prefix (py "true") (c :: s1));
    [intros H; inversion H; subst; exact I|].
  destruct (strip_prefix (py "false") (c :: s1));
    [intros H; inversion H; subst; exact I|].
  destruct (scan_number (c :: s1)) as [[[v'|e'] r']|] eqn:E;
    [intros H; inversion H; subst; now apply scan_number_distinct in E
    |discriminate|].
  destruct (strip_prefix (py "NaN") (c :: s1));
    [intros H; inversion H; subst; exact I|].
  destruct (strip_prefix (py "Infinity") (c :: s1));
    [intros H; inversion H; subst; exact I|].
  destruct (strip_prefix (py "-Infinity") (c :: s1));
    [intros H; inversion H; subst; exact I|].
  discriminate.
Qed.

Lemma json_loads_distinct (s : str) (d : Dict) :
  json_loads s = Ok (JObj d) -> NoDup (map fst d).
Proof.
  unfold json_loads.
  destruct (scan_once _ _ _) as [v r| |e'|] eqn:E; try discriminate.
  destruct (skip_ws r); [|discriminate].
  intros H; inversion H; subst. now apply scan_once_distinct in E.
Qed.

Lemma accepted_wellformed (c : str) (d : Dict) :
  accepted c = Some d -> d <> [] /\ NoDup (map fst d).
Proof.
  unfold accepted. destruct (json_loads c) as [v|e] eqn:E; [|discriminate].
  destruct v as [| | | | | |[|kv d']]; try discriminate.
  intros H; inversion H; subst. split; [discriminate|].
  now apply json_loads_distinct in E.
Qed.

(** X5.  Every record that [add_chunk] returns is a mapping with at
    least one key and with pairwise distinct keys. *)
Theorem add_chunk_records_wellformed (self : state) (text : str) :
  exists rs self',
    add_chunk text self = (Ok rs, self') /\
    Forall (fun d => d <> [] /\ NoDup (map fst d)) rs.
Proof.
  eexists. eexists. split; [apply add_chunk_run|].
  unfold records_of. induction (candidates (buffer self ++ text)) as [|c cs IH];
    simpl; [constructor|].
  destruct (accepted c) as [d|] eqn:E; simpl; [|exact IH].
  constructor; [now apply accepted_wellformed in E | exact IH].
Qed.

(** X6.  After any sequence of calls on a fresh extractor, the parse
    rate reported by [get_stats] is a percentage between 0 and 100 and
    the candidates received are the parsed ones and the invalid ones. *)
Theorem parse_rate_is_percentage (chunks : list str) :
  exists rs self' stats,
    feed chunks init = (Ok rs, self') /\
    get_stats self' = (Ok stats, self') /\
    (0 <= st_parse_rate stats)%Q /\
    (st_parse_rate stats <= 100)%Q /\
    st_total_received stats = st_total_parsed stats + st_total_invalid stats.
Proof.
  destruct (feed_counts chunks init) as (rs & self' & n & Hf & Hn & Hr & Hp & Hi).
  cbn [init total_received total_parsed total_invalid] in Hr, Hp, Hi.
  exists rs, self'. eexists. split; [exact Hf|]. clear Hf.
  split; [reflexivity|].
  cbn [st_parse_rate st_total_received st_total_parsed st_total_invalid].
  assert (Hle : total_parsed self' <= total_received self') by lia.
  destruct (Nat.ltb_spec 0 (total_received self')) as [Hpos|Hz].
  - assert (Hq : (0 < Qnat (total_received self'))%Q)
      by (unfold Qnat, Qlt; simpl; lia).
    assert (Hp0 : (0 <= Qnat (total_parsed self'))%Q)
      by (unfold Qnat, Qle; simpl; lia).
    assert (Hpr : (Qnat (total_parsed self') <= Qnat (total_received self'))%Q)
      by (unfold Qnat, Qle; simpl; lia).
    split; [|split; [|lia]].
    + apply Qmult_le_0_compat; [|discriminate].
      apply Qle_shift_div_l; [assumption|]. lra.
    + setoid_replace (100 : Q) with (1 * 100)%Q at 2 by reflexivity.
      apply Qmult_le_compat_r; [|discriminate].
      apply Qle_shift_div_r; [assumption|]. lra.
  - split; [discriminate|]. split; [discriminate|]. lia.
Qed.

End Records.

Section TelemetryValidation.
Import Telemetry.

Lemma expected_fields_nodup : NoDup expected_fields.
Proof.
  assert (H : nodup (list_eq_dec N.eq_dec) expected_fields = expected_fields)
    by (vm_compute; reflexivity).
  rewrite <- H. apply NoDup_nodup.
Qed.

Lemma filter_length_le (A : Type) (p q : A -> bool) (l : list A) :
  (forall x, p x = true -> q x = true) ->
  List.length (filter p l) <= List.length (filter q l).
Proof.
  intros Hpq. induction l as [|x l IH]; simpl; [lia|].
  destruct (p x) eqn:Hp.
  - rewrite (Hpq x Hp). simpl. lia.
  - destruct (q x); simpl; lia.
Qed.

Lemma existsb_str_in (f : str) (keys : list str) :
  existsb (str_eqb f) keys = true <-> In f keys.
Proof.
  rewrite existsb_exists. split.
  - intros (k & Hin & He). apply str_eqb_eq in He. now subst.
  - intros Hin. exists f. split; [assumption | now apply str_eqb_eq].
Qed.

(** X7.  [validate_telemetry] looks at the keys only: a record with
    fewer than three keys is never valid, and a valid record stays
    valid when keys are added or values are changed. *)
Theorem validate_telemetry_keys (data : Dict) :
  (List.length data < 3 -> validate_telemetry data = false) /\
  (forall data',
      incl (map fst data) (map fst data') ->
      validate_telemetry data = true -> validate_telemetry data' = true).
Proof.
  split.
  - intros Hlen. unfold validate_telemetry. apply Nat.leb_gt.
    eapply Nat.le_lt_trans; [|exact Hlen].
    rewrite <- (length_map fst data).
    apply NoDup_incl_length.
    + apply NoDup_filter, expected_fields_nodup.
    + intros f Hf. apply filter_In in Hf. now apply existsb_str_in.
  - intros data' Hincl. unfold validate_telemetry. rewrite !Nat.leb_le.
    intros H. eapply Nat.le_trans; [exact H|].
    apply filter_length_le. intros f Hf.
    apply existsb_str_in. apply Hincl. now apply existsb_str_in.
Qed.

End TelemetryValidation.

(* ===================================================================== *)
(** * Further properties of the sink client *)
(* ===================================================================== *)

Section ClientMore.
Import ThingsBoardClient.

(** X8.  [get_stats] changes nothing and, for every state of the
    client, reports a success rate that is a percentage between 0 and
    100; it is 0 when nothing was sent yet, without a division by
    zero, and the time of the last send is reported as it is stored. *)
Theorem success_rate_is_percentage (self : state) :
  exists stats,
    get_stats self = (Ok stats, self) /\
    (0 <= st_success_rate stats)%Q /\
    (st_success_rate stats <= 100)%Q /\
    (total_sent self + total_failed self = 0 -> st_success_rate stats = 0%Q) /\
    (total_failed self = 0 -> 0 < total_sent self ->
     (st_success_rate stats == 100)%Q) /\
    st_last_send_time stats = last_send_time self.
Proof.
  eexists. split; [reflexivity|].
  cbn [st_success_rate st_last_send_time].
  destruct (Nat.ltb_spec 0 (total_sent self + total_failed self)) as [Hpos|Hz].
  - assert (Hq : (0 < Qnat (total_sent self + total_failed self))%Q)
      by (unfold Qnat, Qlt; simpl; lia).
    assert (Hs0 : (0 <= Qnat (total_sent self))%Q)
      by (unfold Qnat, Qle; simpl; lia).
    assert (Hsr : (Qnat (total_sent self)
                   <= Qnat (total_sent self + total_failed self))%Q)
      by (unfold Qnat, Qle; simpl; lia).
    split; [|split; [|split; [lia|split; [|reflexivity]]]].
    + apply Qmult_le_0_compat; [|discriminate].
      apply Qle_shift_div_l; [assumption|]. lra.
    + setoid_replace (100 : Q) with (1 * 100)%Q at 2 by reflexivity.
      apply Qmult_le_compat_r; [|discriminate].
      apply Qle_shift_div_r; [assumption|]. lra.
    + intros Hf _. rewrite Hf, Nat.add_0_r. field.
      intros H0. rewrite Hf, Nat.add_0_r in Hq. rewrite H0 in Hq.
      now apply Qlt_irrefl in Hq.
  - repeat split; try discriminate; try reflexivity. intros; lia.
Qed.

End ClientMore.

(* ===================================================================== *)
(** * Properties of the reading of the serial text *)
(* ===================================================================== *)

Section Monitor.
Import SerialMonitor.

(** The equation that [replace_crlf] satisfies. *)
Lemma replace_crlf_cons (c : N) (s : str) :
  TinkerCADAutomation.replace_crlf (c :: s)
  = if N.eqb c 13 && match s with d :: _ => N.eqb d 10 | [] => false end
    then TinkerCADAutomation.replace_crlf s
    else c :: TinkerCADAutomation.replace_crlf s.
Proof.
  destruct (N.eqb_spec c 13) as [->|Hc].
  - destruct s as [|d s]; [reflexivity|].
    destruct (N.eqb_spec d 10) as [->|Hd]; [reflexivity|].
    destruct d as [|q]; [reflexivity|].
    do 4 (destruct q as [q|q|]; try reflexivity). now elim Hd.
  - destruct c as [|p]; [reflexivity|].
    do 4 (destruct p as [p|p|]; try reflexivity). now elim Hc.
Qed.

Lemma replace_crlf_length (s : str) :
  List.length (TinkerCADAutomation.replace_crlf s) <= List.length s.
Proof.
  induction s as [|c s IH]; [simpl; lia|].
  rewrite replace_crlf_cons. destruct (_ && _); simpl; lia.
Qed.

Lemma replace_crlf_no_cr (s : str) :
  no_cr s -> TinkerCADAutomation.replace_crlf s = s.
Proof.
  induction 1 as [|c s Hc _ IH]; [reflexivity|].
  rewrite replace_crlf_cons, Hc. simpl. now rewrite IH.
Qed.

Lemma replace_cr_no_cr (s : str) :
  no_cr s -> TinkerCADAutomation.replace_cr s = s.
Proof.
  induction 1 as [|c s Hc _ IH]; [reflexivity|].
  simpl. rewrite Hc. f_equal. exact IH.
Qed.

Lemma replace_cr_clean (s : str) : no_cr (TinkerCADAutomation.replace_cr s).
Proof.
  induction s as [|c s IH]; simpl; constructor; [|exact IH].
  destruct (N.eqb c 13) eqn:E; [reflexivity | exact E].
Qed.

(** X9.  [read_serial_output] raises nothing but an interrupt: any
    [Exception] of the page gives [None].  The text it returns holds no
    carriage return, is not longer than the text of the widget, and is
    that text unchanged when it holds no carriage return. *)
Theorem read_serial_output_normalized (inner_text : result str) :
  match inner_text with
  | Ok text =>
      TinkerCADAutomation.read_serial_output inner_text tt
      = (Ok (Some (normalized text)), tt) /\
      no_cr (normalized text) /\
      List.length (normalized text) <= List.length text /\
      (no_cr text -> normalized text = text) /\
      normalized (normalized text) = normalized text
  | Raise e =>
      TinkerCADAutomation.read_serial_output inner_text tt
      = (if is_Exception e then Ok None else Raise e, tt)
  end.
Proof.
  destruct inner_text as [text|e].
  - assert (Hid : no_cr text -> normalized text = text).
    { intros H. unfold normalized.
      now rewrite replace_crlf_no_cr, replace_cr_no_cr. }
    assert (Hclean : no_cr (normalized text)) by apply replace_cr_clean.
    split; [reflexivity|]. split; [exact Hclean|]. split.
    + unfold normalized, TinkerCADAutomation.replace_cr.
      rewrite length_map. apply replace_crlf_length.
    + split; [exact Hid|].
      unfold normalized at 1.
      now rewrite replace_crlf_no_cr, replace_cr_no_cr.
  - destruct e; reflexivity.
Qed.

(** What a call of [get_new_content] does. *)
Lemma get_new_content_run (full : str) (self : state) :
  get_new_content (Some full) self
  = (Ok (slice_from (if List.length full <? last_text_length self
                     then 0 else last_text_length self) full),
     {| last_text_length := List.length full;
        total_reads := total_reads self + 1 |}).
Proof.
  unfold get_new_content, bind, modify, get, ret.
  cbn [last_text_length total_reads].
  destruct (List.length full <? last_text_length self); reflexivity.
Qed.

(** X10.  [get_new_content] never raises.  On a failed reading it
    returns the empty text and changes nothing.  Otherwise what it
    returns is a suffix of the text read, and the monitor remembers the
    length of that text: the whole text when the monitor has seen
    nothing, after [reset], or when the text got shorter; else the part
    beyond the length seen before, whatever the text before it
    became. *)
Theorem get_new_content_suffix (full : str) (self : state) :
  get_new_content None self = (Ok [], self) /\
  exists new self',
    get_new_content (Some full) self = (Ok new, self') /\
    (exists seen, full = seen ++ new) /\
    last_text_length self' = List.length full /\
    total_reads self' = total_reads self + 1 /\
    (List.length full < last_text_length self -> new = full) /\
    (last_text_length self <= List.length full ->
     new = slice_from (last_text_length self) full) /\
    fst ((reset ;; get_new_content (Some full))%monad self) = Ok full.
Proof.
  split; [reflexivity|].
  eexists. eexists. split; [apply get_new_content_run|].
  split; [|split; [reflexivity|split; [reflexivity|split; [|split]]]].
  - eexists. unfold slice_from. symmetry. apply firstn_skipn.
  - intros H. apply Nat.ltb_lt in H. now rewrite H.
  - intros H. apply Nat.ltb_ge in H. now rewrite H.
  - unfold bind, reset, modify. rewrite get_new_content_run.
    reflexivity.
Qed.

(** X11.  As long as the text of the widget only grows, the contents
    returned by successive calls, joined, are exactly the text added
    since the monitor last looked: no character is lost and none is
    returned twice, failed readings in between or not. *)
Theorem poll_texts_growing (reads : list (option str)) :
  forall (prev : str) (self : state),
  last_text_length self = List.length prev ->
  growing_from prev reads ->
  exists new self',
    poll_texts reads self = (Ok new, self') /\
    prev ++ new = last_seen prev reads /\
    last_text_length self' = List.length (last_seen prev reads).
Proof.
  induction reads as [|[t|] reads IH]; intros prev self Hlen Hg.
  - exists [], self. simpl. unfold ret. rewrite app_nil_r. now repeat split.
  - destruct Hg as [(d & ->) Hg].
    destruct (IH (prev ++ d)
                {| last_text_length := List.length (prev ++ d);
                   total_reads := total_reads self + 1 |} eq_refl Hg)
      as (more & self' & Hrun & Hcat & Hl).
    exists (d ++ more), self'. cbn [poll_texts last_seen]. unfold bind at 1.
    rewrite get_new_content_run, Hlen.
    assert (Hge : (List.length (prev ++ d) <? List.length prev) = false)
      by (apply Nat.ltb_ge; rewrite length_app; lia).
    rewrite Hge. unfold slice_from. rewrite skipn_length_app.
    unfold bind. rewrite Hrun. unfold ret.
    split; [reflexivity|]. split; [|exact Hl].
    now rewrite app_assoc.
  - destruct (IH prev self Hlen Hg) as (more & self' & Hrun & Hcat & Hl).
    exists more, self'. cbn [poll_texts last_seen]. unfold bind at 1.
    cbn [get_new_content]. unfold ret at 1. unfold bind. rewrite Hrun.
    unfold ret. now repeat split.
Qed.

Lemma poll_texts_growing_witness :
  exists new self',
    poll_texts [Some (js "{'a'"); None; Some (js "{'a':1}"); Some (js "{'a':1}");
                Some (js "{'a':1}{'b':2}")] init = (Ok new, self') /\
    [] ++ new
    = last_seen [] [Some (js "{'a'"); None; Some (js "{'a':1}"); Some (js "{'a':1}");
                    Some (js "{'a':1}{'b':2}")] /\
    last_text_length self'
    = List.length
        (last_seen [] [Some (js "{'a'"); None; Some (js "{'a':1}"); Some (js "{'a':1}");
                       Some (js "{'a':1}{'b':2}")]).
Proof.
  apply (@poll_texts_growing
           [Some (js "{'a'"); None; Some (js "{'a':1}"); Some (js "{'a':1}");
            Some (js "{'a':1}{'b':2}")] [] init).
  - reflexivity.
  - simpl. repeat split.
    + exists (js "{'a'"). reflexivity.
    + exists (js ":1}"). reflexivity.
    + exists []. reflexivity.
    + exists (js "{'b':2}"). reflexivity.
Defined.

End Monitor.

(* ===================================================================== *)
(** * Further properties of the rate limiter *)
(* ===================================================================== *)

Section LimiterMore.
Import RateLimiter.





(** X13.  A call never sleeps longer than [min_interval] when the clock
    has not gone back behind the time recorded, and does not sleep at
    all when at least [min_interval] has passed since then. *)
Theorem wait_if_needed_sleep_bound (lag : Q) (self : state) (w : World) :
  (0 <= min_interval self)%Q ->
  (last_send_time self <= clock w)%Q ->
  (sleep_total (trace (snd (wait_if_needed lag self w)))
   <= sleep_total (trace w) + min_interval self)%Q /\
  (sleep_total (trace w)
   <= sleep_total (trace (snd (wait_if_needed lag self w))))%Q /\
  ((last_send_time self + min_interval self <= clock w)%Q ->
   filter is_sleep (trace (snd (wait_if_needed lag self w)))
   = filter is_sleep (trace w)).
Proof.
  intros Hmi Hclock. unfold wait_if_needed, time_time. cbn [clock emit].
  set (wt := (min_interval self - (clock w - last_send_time self))%Q).
  destruct (Qpositive wt) eqn:Hp; cbn [snd trace emit time_sleep].
  - apply Qpositive_true in Hp. rewrite !sleep_total_app. simpl.
    unfold wt in *. repeat split; try lra.
  - rewrite !sleep_total_app. simpl. repeat split; try lra.
    intros _. rewrite !filter_app. simpl. now rewrite !app_nil_r.
Qed.

Lemma wait_if_needed_sleep_bound_witness :
  (sleep_total (trace (snd (wait_if_needed (1 # 100)%Q (init 5)
                              {| clock := 1000; trace := [EvSleep 3] |})))
   <= sleep_total [EvSleep 3] + min_interval (init 5))%Q /\
  (sleep_total [EvSleep 3]
   <= sleep_total (trace (snd (wait_if_needed (1 # 100)%Q (init 5)
                                 {| clock := 1000; trace := [EvSleep 3] |}))))%Q /\
  ((last_send_time (init 5) + min_interval (init 5) <= 1000)%Q ->
   filter is_sleep (trace (snd (wait_if_needed (1 # 100)%Q (init 5)
                                  {| clock := 1000; trace := [EvSleep 3] |})))
   = filter is_sleep [EvSleep 3]).
Proof.
  apply (@wait_if_needed_sleep_bound (1 # 100)%Q (init 5)
           {| clock := 1000; trace := [EvSleep 3] |}).
  - discriminate.
  - discriminate.
Defined.

End LimiterMore.

(* ===================================================================== *)
(** * Further properties of the streaming loop *)
(* ===================================================================== *)

Section LoopMore.
Context {interp : Interpreter}.
Import Bridge.

Lemma posted_app (a b : list event) : posted (a ++ b) = posted a ++ posted b.
Proof. apply flat_map_app. Qed.

(** The limiter posts nothing and cleans nothing up. *)
Lemma wait_if_needed_trace (lag : Q) (rl : RateLimiter.state) (w : World) :
  posted (trace (snd (RateLimiter.wait_if_needed lag rl w))) = posted (trace w) /\
  filter is_cleanup (trace (snd (RateLimiter.wait_if_needed lag rl w)))
  = filter is_cleanup (trace w).
Proof.
  unfold RateLimiter.wait_if_needed, time_time. cbn [clock emit trace].
  destruct (RateLimiter.Qpositive _); cbn [snd trace emit time_sleep];
    rewrite !posted_app, !filter_app; simpl; rewrite ?app_nil_r; split; reflexivity.
Qed.

(** One delivery, whatever the world answers. *)
Lemma deliver_any (cfg : Settings) (env : SendEnv) (data : Dict) (b : state) :
  message_count (snd (deliver cfg env data b))
  + ThingsBoardClient.total_sent (tb_client b)
  = message_count b
    + ThingsBoardClient.total_sent (tb_client (snd (deliver cfg env data b))) /\
  (exists k, posted (trace (world (snd (deliver cfg env data b))))
             = posted (trace (world b)) ++ firstn k [data]) /\
  (fst (deliver cfg env data b) = Ok tt ->
   posted (trace (world (snd (deliver cfg env data b))))
   = posted (trace (world b)) ++ [data]) /\
  filter is_cleanup (trace (world (snd (deliver cfg env data b))))
  = filter is_cleanup (trace (world b)).
Proof.
  destruct (wait_if_needed_trace (lag env) (rate_limiter b) (world b)) as [Hp Hc].
  unfold deliver, call_wait_if_needed, call_send_telemetry, print, on.
  unfold ThingsBoardClient.send_telemetry, try_except.
  unfold bind, modify, get, ret, lift_result.
  destruct (RateLimiter.wait_if_needed (lag env) (rate_limiter b) (world b))
    as [rl w1].
  cbn [snd] in Hp, Hc.
  destruct (PRINT_PREVIEW cfg); [destruct (preview_print env) as [[]|e0]|];
    (destruct (post env) as [r|e1];
     [destruct (ThingsBoardClient.ok r)|destruct e1]);
    destruct (status_print env) as [[]|e2];
    cbn [set_world set_rate_limiter set_tb_client incr_message_count world
         tb_client rate_limiter message_count serial_monitor data_processor
         snd fst trace emit advance is_Exception
         ThingsBoardClient.total_sent ThingsBoardClient.incr_sent
         ThingsBoardClient.incr_failed ThingsBoardClient.set_last_send_time];
    rewrite ?posted_app, ?filter_app, ?Hp, ?Hc; simpl;
    rewrite ?app_nil_r, <- ?app_assoc;
    (split; [lia|]);
    (split; [first [now exists 1 | exists 0; simpl; now rewrite app_nil_r]|]);
    (split; [first [reflexivity | discriminate]|]);
    reflexivity.
Qed.

(** The deliveries of a tick, whatever the world answers: the records
    posted are the first of the records to deliver, all of them when
    nothing raises. *)
Lemma deliver_all_any (cfg : Settings) (sends : nat -> SendEnv) (records : list Dict) :
  forall i b,
  message_count (snd (deliver_all cfg sends i records b))
  + ThingsBoardClient.total_sent (tb_client b)
  = message_count b
    + ThingsBoardClient.total_sent (tb_client (snd (deliver_all cfg sends i records b))) /\
  (exists k, posted (trace (world (snd (deliver_all cfg sends i records b))))
             = posted (trace (world b)) ++ firstn k records) /\
  (fst (deliver_all cfg sends i records b) = Ok tt ->
   posted (trace (world (snd (deliver_all cfg sends i records b))))
   = posted (trace (world b)) ++ records) /\
  filter is_cleanup (trace (world (snd (deliver_all cfg sends i records b))))
  = filter is_cleanup (trace (world b)).
Proof.
  induction records as [|d records IH]; intros i b.
  - cbn [deliver_all]. unfold ret. cbn [fst snd]. rewrite app_nil_r.
    split; [lia|]. split; [exists 0; now rewrite app_nil_r|]. now split.
  - cbn [deliver_all]. unfold bind.
    destruct (deliver_any cfg (sends i) d b) as (Hm & (k & Hk) & Hok & Hc).
    destruct (deliver cfg (sends i) d b) as [[[]|e] b1]; cbn [fst snd] in *.
    + destruct (IH (S i) b1) as (Hm' & (k' & Hk') & Hok' & Hc').
      split; [lia|]. split; [|split].
      * exists (S k'). rewrite Hk', Hok by reflexivity.
        now rewrite <- app_assoc.
      * intros H. rewrite (Hok' H), Hok by reflexivity. now rewrite <- app_assoc.
      * now rewrite Hc'.
    + split; [exact Hm|]. split; [|split; [discriminate | exact Hc]].
      destruct k as [|k].
      * exists 0. exact Hk.
      * exists 1. rewrite Hk. simpl. now destruct k.
Qed.

(** A tick on which the widget is read. *)
Lemma tick_text (cfg : Settings) (env : TickEnv) (text : str) (b : state) :
  inner_text env = Ok text ->
  tick cfg env b
  = let b1 := set_serial_monitor
                {| SerialMonitor.last_text_length := List.length (normalized text);
                   SerialMonitor.total_reads :=
                     SerialMonitor.total_reads (serial_monitor b) + 1 |} b in
    match new_content_of env b with
    | [] => poll_sleep cfg (poll env) b1
    | c :: rest =>
        let cands :=
          candidates (DataProcessor.buffer (data_processor b) ++ c :: rest) in
        let b2 :=
          set_data_processor
            (counted cands
               (remainder (DataProcessor.buffer (data_processor b) ++ c :: rest))
               (data_processor b)) b1 in
        match deliver_all cfg (sends env) 0 (records_of cands) b2 with
        | (Ok _, b3) => poll_sleep cfg (poll env) b3
        | (Raise e, b3) => (Raise e, b3)
        end
    end.
Proof.
  intros Hin. unfold tick, new_content_of. rewrite Hin.
  unfold TinkerCADAutomation.read_serial_output, try_except, on.
  unfold bind at 1. unfold bind at 1. unfold lift_result at 1. unfold ret at 1.
  unfold bind at 1.
  fold (normalized text). rewrite get_new_content_run.
  destruct (slice_from _ (normalized text)) as [|c rest].
  - unfold bind, ret. reflexivity.
  - unfold bind at 1. unfold bind at 1. rewrite add_chunk_run.
    cbn [data_processor set_serial_monitor].
    destruct (deliver_all _ _ _ _ _) as [[[]|e] b3]; reflexivity.
Qed.
(** A tick on which the reading of the widget raises. *)
Lemma tick_no_text (cfg : Settings) (env : TickEnv) (e : exn) (b : state) :
  inner_text env = Raise e ->
  tick cfg env b
  = if is_Exception e then poll_sleep cfg (poll env) b else (Raise e, b).
Proof.
  intros Hin. unfold tick. rewrite Hin.
  unfold TinkerCADAutomation.read_serial_output, try_except, on.
  unfold bind at 1. unfold bind at 1. unfold lift_result at 1.
  destruct b. destruct e; reflexivity.
Qed.

(** The poll sleep posts nothing and touches no component. *)
Lemma poll_sleep_any (cfg : Settings) (o : result unit) (b : state) :
  fst (poll_sleep cfg o b) = o /\
  serial_monitor (snd (poll_sleep cfg o b)) = serial_monitor b /\
  data_processor (snd (poll_sleep cfg o b)) = data_processor b /\
  tb_client (snd (poll_sleep cfg o b)) = tb_client b /\
  message_count (snd (poll_sleep cfg o b)) = message_count b /\
  posted (trace (world (snd (poll_sleep cfg o b)))) = posted (trace (world b)) /\
  filter is_cleanup (trace (world (snd (poll_sleep cfg o b))))
  = filter is_cleanup (trace (world b)).
Proof.
  unfold poll_sleep, bind, modify, lift_result.
  cbn [fst snd set_world world serial_monitor data_processor tb_client
       message_count trace time_sleep].
  rewrite posted_app, filter_app. simpl. rewrite !app_nil_r.
  repeat split; reflexivity.
Qed.

(** One tick, whatever the world answers. *)
Lemma tick_any (cfg : Settings) (env : TickEnv) (b : state) :
  serial_monitor (snd (tick cfg env b))
  = match inner_text env with
    | Ok text =>
        {| SerialMonitor.last_text_length := List.length (normalized text);
           SerialMonitor.total_reads :=
             SerialMonitor.total_reads (serial_monitor b) + 1 |}
    | Raise _ => serial_monitor b
    end /\
  data_processor (snd (tick cfg env b))
  = match new_content_of env b with
    | [] => data_processor b
    | c :: rest =>
        counted (candidates (DataProcessor.buffer (data_processor b) ++ c :: rest))
                (remainder (DataProcessor.buffer (data_processor b) ++ c :: rest))
                (data_processor b)
    end /\
  (exists k, posted (trace (world (snd (tick cfg env b))))
             = posted (trace (world b)) ++ firstn k (tick_records env b)) /\
  (fst (tick cfg env b) = Ok tt ->
   posted (trace (world (snd (tick cfg env b))))
   = posted (trace (world b)) ++ tick_records env b) /\
  message_count (snd (tick cfg env b))
  + ThingsBoardClient.total_sent (tb_client b)
  = message_count b
    + ThingsBoardClient.total_sent (tb_client (snd (tick cfg env b))) /\
  filter is_cleanup (trace (world (snd (tick cfg env b))))
  = filter is_cleanup (trace (world b)).
Proof.
  destruct (inner_text env) as [text|e] eqn:Hin.
  - rewrite (tick_text cfg env b Hin). unfold tick_records. cbv zeta.
    destruct (new_content_of env b) as [|c rest].
    + destruct (poll_sleep_any cfg (poll env)
                  (set_serial_monitor
                     {| SerialMonitor.last_text_length := List.length (normalized text);
                        SerialMonitor.total_reads :=
                          SerialMonitor.total_reads (serial_monitor b) + 1 |} b))
        as (_ & Hs & Hd & Ht & Hm & Hp & Hc).
      rewrite Hs, Hd, Ht, Hm, Hp, Hc. cbn [set_serial_monitor serial_monitor
        data_processor tb_client message_count world].
      rewrite app_nil_r.
      split; [reflexivity|]. split; [reflexivity|].
      split; [exists 0; now rewrite app_nil_r|].
      split; [reflexivity|]. split; reflexivity.
    + set (cands := candidates (DataProcessor.buffer (data_processor b) ++ c :: rest)).
      set (b2 := set_data_processor _ _).
      destruct (deliver_all_any cfg (sends env) (records_of cands) 0 b2)
        as (Hm & (k & Hk) & Hok & Hc).
      destruct (deliver_all_frame cfg (sends env) (records_of cands) 0 b2) as [Hd Hs].
      destruct (deliver_all cfg (sends env) 0 (records_of cands) b2) as [[[]|e] b3];
        cbn [fst snd] in *.
      * destruct (poll_sleep_any cfg (poll env) b3)
          as (_ & Hs' & Hd' & Ht' & Hm' & Hp' & Hc').
        rewrite Hs', Hd', Ht', Hm', Hp', Hc', Hs, Hd, Hc, Hok by reflexivity.
        split; [reflexivity|]. split; [reflexivity|].
        split; [exists (List.length (records_of cands)); now rewrite firstn_all|].
        split; [reflexivity|]. split; [exact Hm | reflexivity].
      * rewrite Hs, Hd, Hc.
        split; [reflexivity|]. split; [reflexivity|].
        split; [exists k; exact Hk|].
        split; [discriminate|]. split; [exact Hm | reflexivity].
  - rewrite (tick_no_text cfg env b Hin). unfold tick_records, new_content_of.
    rewrite Hin. destruct (is_Exception e).
    + destruct (poll_sleep_any cfg (poll env) b) as (_ & Hs & Hd & Ht & Hm & Hp & Hc).
      rewrite Hs, Hd, Ht, Hm, Hp, Hc, app_nil_r.
      split; [reflexivity|]. split; [reflexivity|].
      split; [exists 0; now rewrite app_nil_r|].
      split; [reflexivity|]. split; reflexivity.
    + cbn [fst snd]. rewrite app_nil_r.
      split; [reflexivity|]. split; [reflexivity|].
      split; [exists 0; now rewrite app_nil_r|].
      split; [discriminate|]. split; reflexivity.
Qed.

Lemma streaming_loop_any (cfg : Settings) (envs : list TickEnv) : forall b,
  message_count (snd (streaming_loop cfg envs b))
  + ThingsBoardClient.total_sent (tb_client b)
  = message_count b
    + ThingsBoardClient.total_sent (tb_client (snd (streaming_loop cfg envs b))) /\
  filter is_cleanup (trace (world (snd (streaming_loop cfg envs b))))
  = filter is_cleanup (trace (world b)).
Proof.
  induction envs as [|env envs IH]; intros b.
  - cbn [streaming_loop]. unfold ret. cbn [snd]. split; [lia | reflexivity].
  - cbn [streaming_loop]. unfold bind.
    destruct (tick_any cfg env b) as (_ & _ & _ & _ & Hm & Hc).
    destruct (tick cfg env b) as [[[]|e] b1]; cbn [snd] in *.
    + destruct (IH b1) as [Hm' Hc']. split; [lia | congruence].
    + split; assumption.
Qed.

(** Leaving the loop: the handlers and the [finally] clause touch
    neither the components nor the counters, make no request, and the
    cleanup is the last thing done. *)
Lemma leave_any (env : TickEnv) (e : exn) (b : state) :
  fst (leave env e b) <> STREAMING /\
  message_count (snd (leave env e b)) = message_count b /\
  tb_client (snd (leave env e b)) = tb_client b /\
  serial_monitor (snd (leave env e b)) = serial_monitor b /\
  data_processor (snd (leave env e b)) = data_processor b /\
  posted (trace (world (snd (leave env e b)))) = posted (trace (world b)) /\
  filter is_cleanup (trace (world (snd (leave env e b))))
  = filter is_cleanup (trace (world b)) ++ [EvCleanup] /\
  exists tr, trace (world (snd (leave env e b))) = tr ++ [EvCleanup].
Proof.
  unfold leave, cleanup, print, bind, modify, lift_result.
  destruct (is_Exception e), (stats_print env) as [[]|e1],
    (closing env) as [[]|e2];
    cbn [fst snd set_world world message_count tb_client serial_monitor
         data_processor emit trace];
    rewrite ?posted_app, ?filter_app; simpl; rewrite ?app_nil_r;
    (split; [discriminate|]); repeat split; try reflexivity;
    eexists; reflexivity.
Qed.

Lemma run_streaming_any (cfg : Settings) (envs : list TickEnv) : forall b,
  (message_count (snd (run_streaming cfg envs b))
   + ThingsBoardClient.total_sent (tb_client b)
   = message_count b
     + ThingsBoardClient.total_sent (tb_client (snd (run_streaming cfg envs b)))) /\
  filter is_cleanup (trace (world (snd (run_streaming cfg envs b))))
  = filter is_cleanup (trace (world b))
    ++ match fst (run_streaming cfg envs b) with
       | STREAMING => []
       | _ => [EvCleanup]
       end /\
  (fst (run_streaming cfg envs b) <> STREAMING ->
   exists tr, trace (world (snd (run_streaming cfg envs b))) = tr ++ [EvCleanup]).
Proof.
  induction envs as [|env envs IH]; intros b.
  - cbn [run_streaming fst snd]. rewrite app_nil_r.
    split; [lia|]. split; [reflexivity|]. intros H. now elim H.
  - cbn [run_streaming].
    destruct (tick_any cfg env b) as (_ & _ & _ & _ & Hm & Hc).
    destruct (tick cfg env b) as [[[]|e] b1]; cbn [snd] in *.
    + destruct (IH b1) as (Hm' & Hc' & Hl'). rewrite Hc', Hc.
      split; [lia|]. split; [reflexivity | exact Hl'].
    + destruct (leave_any env e b1) as (Hst & Hm' & Ht' & _ & _ & _ & Hc' & Hl').
      rewrite Hm', Ht', Hc', Hc. split; [exact Hm|]. split; [|intros _; exact Hl'].
      destruct (fst (leave env e b1)); [now elim Hst | | |]; reflexivity.
Qed.

(** X14.  Over any run of the loop, however it goes and however it
    ends, [message_count] grows by exactly what the client's
    [total_sent] grows by: the number of messages reported at shutdown
    is the number of records the client counted as sent during the
    loop. *)
Theorem message_count_tracks_total_sent
  (cfg : Settings) (envs : list TickEnv) (b : state) :
  message_count (snd (run_streaming cfg envs b))
  + ThingsBoardClient.total_sent (tb_client b)
  = message_count b
    + ThingsBoardClient.total_sent (tb_client (snd (run_streaming cfg envs b))).
Proof. exact (proj1 (run_streaming_any cfg envs b)). Qed.

(** X15.  The records that a tick posts are records that the extractor
    returned for the text of this tick, in the order it returned them
    and each at most once: a first part of them, and all of them when
    the tick ends without raising. *)
Theorem tick_posts_extracted_records (cfg : Settings) (env : TickEnv) (b : state) :
  (exists k, posted (trace (world (snd (tick cfg env b))))
             = posted (trace (world b)) ++ firstn k (tick_records env b)) /\
  (fst (tick cfg env b) = Ok tt ->
   posted (trace (world (snd (tick cfg env b))))
   = posted (trace (world b)) ++ tick_records env b).
Proof.
  destruct (tick_any cfg env b) as (_ & _ & Hk & Hok & _). now split.
Qed.

(** X16.  What the monitor and the extractor hold after a tick is
    decided by the text read alone: the monitor is as after
    [get_new_content], the extractor as after [add_chunk] on the new
    content (untouched when there is none), whatever the deliveries
    do, failing, raising or slow. *)
Theorem tick_extraction_independent_of_delivery
  (cfg : Settings) (env : TickEnv) (b : state) :
  serial_monitor (snd (tick cfg env b))
  = match inner_text env with
    | Ok text =>
        snd (SerialMonitor.get_new_content (Some (normalized text)) (serial_monitor b))
    | Raise _ => serial_monitor b
    end /\
  data_processor (snd (tick cfg env b))
  = match new_content_of env b with
    | [] => data_processor b
    | c :: rest => snd (DataProcessor.add_chunk (c :: rest) (data_processor b))
    end.
Proof.
  destruct (tick_any cfg env b) as (Hs & Hd & _). rewrite Hs, Hd. split.
  - destruct (inner_text env); [|reflexivity].
    now rewrite get_new_content_run.
  - destruct (new_content_of env b); [reflexivity|].
    now rewrite add_chunk_run.
Qed.

(** X17.  The cleanup of the [finally] clause runs exactly when the loop
    is left, by an interrupt or by an exception, and is then the last
    thing done; while the loop runs, none is made. *)
Theorem cleanup_exactly_when_left (cfg : Settings) (envs : list TickEnv) (b : state) :
  filter is_cleanup (trace (world (snd (run_streaming cfg envs b))))
  = filter is_cleanup (trace (world b))
    ++ match fst (run_streaming cfg envs b) with
       | STREAMING => []
       | _ => [EvCleanup]
       end /\
  (fst (run_streaming cfg envs b) <> STREAMING ->
   exists tr, trace (world (snd (run_streaming cfg envs b))) = tr ++ [EvCleanup]).
Proof. exact (proj2 (run_streaming_any cfg envs b)). Qed.

End LoopMore.

(* ===================================================================== *)
(** * The configuration, the start of the bridge and the exit code *)
(* ===================================================================== *)

Section Startup.
Context {interp : Interpreter}.
Import Bridge Main.





(** The connectivity probe, whatever the world answers. *)
Lemma call_test_connection_any (se : StartEnv) (b : state) :
  serial_monitor (snd (call_test_connection se b)) = serial_monitor b /\
  data_processor (snd (call_test_connection se b)) = data_processor b /\
  message_count (snd (call_test_connection se b)) = message_count b /\
  posted (trace (world (snd (call_test_connection se b))))
  = posted (trace (world b)) ++ [ThingsBoardClient.test_data] /\
  filter is_cleanup (trace (world (snd (call_test_connection se b))))
  = filter is_cleanup (trace (world b)) /\
  match fst (call_test_connection se b) with
  | Ok true =>
      post_succeeds (probe se) = true /\
      ThingsBoardClient.total_sent (tb_client (snd (call_test_connection se b)))
      = ThingsBoardClient.total_sent (tb_client b) + 1
  | Ok false => post_succeeds (probe se) = false
  | Raise e => e = KeyboardInterrupt /\ post_succeeds (probe se) = false
  end.
Proof.
  unfold call_test_connection, on, ThingsBoardClient.test_connection.
  unfold ThingsBoardClient.send_telemetry, try_except.
  unfold bind, modify, get, ret, lift_result.
  destruct (probe se) as [r|e]; [destruct (ThingsBoardClient.ok r) eqn:Hok|destruct e];
    cbn [fst snd set_world set_tb_client world tb_client message_count
         serial_monitor data_processor trace emit advance is_Exception
         ThingsBoardClient.total_sent ThingsBoardClient.incr_sent
         ThingsBoardClient.incr_failed ThingsBoardClient.set_last_send_time
         post_succeeds];
    rewrite ?posted_app, ?filter_app, ?Hok; simpl; rewrite ?app_nil_r;
    repeat split; reflexivity.
Qed.


(** X20.  When the start fails, the only request ever made is the
    connectivity probe, and none at all is made when the configuration
    summary raises or the configuration is invalid. *)
Theorem failed_start_requests (c : Config.t) (se : StartEnv)
  (ticks : list TickEnv) (w : World) :
  startup_ok c se = false ->
  posted (trace (world (snd (main c se ticks w))))
  = posted (trace w)
    ++ match summary se, Config.validate_config c with
       | Ok _, [] => [ThingsBoardClient.test_data]
       | _, _ => []
       end.
Proof.
  unfold main, run_bridge, startup_ok, bail_out.
  destruct (summary se) as [[]|e0];
    [|intros _; destruct (is_Exception e0); cbn [snd init world];
      now rewrite app_nil_r].
  destruct (Config.validate_config c) as [|err errs];
    [|intros _; cbn [snd init world]; now rewrite app_nil_r].
  destruct (call_test_connection_any se (init (Config.loop c) ThingsBoardClient.init w))
    as (_ & _ & _ & Hp & _ & Hr).
  cbn [init world] in Hp.
  destruct (call_test_connection se (init (Config.loop c) ThingsBoardClient.init w))
    as [[[|]|e1] b1]; cbn [fst snd] in *.
  - destruct Hr as [Hps _]. rewrite Hps.
    destruct (launch se) as [[]|e2];
      [|intros _; destruct (is_Exception e2); exact Hp].
    destruct (login se);
      [|intros _; destruct (close_browser se) as [[]|e5];
        cbv beta iota zeta delta [negb];
        [|destruct (is_Exception e5)]; exact Hp].
    destruct (setup se);
      [|intros _; destruct (close_browser se) as [[]|e5];
        cbv beta iota zeta delta [negb];
        [|destruct (is_Exception e5)]; exact Hp].
    cbn [negb andb].
    destruct (dashboard se) as [[]|e3];
      [discriminate | intros _; destruct (is_Exception e3); exact Hp].
  - intros _. exact Hp.
  - intros _. destruct (is_Exception e1); exact Hp.
Qed.

(** X21.  Once the loop is reached, the client's [total_sent] is always
    one more than [message_count]: the connectivity probe is counted by
    the client as a telemetry message sent, and by the loop it is
    not. *)
Theorem total_sent_counts_probe (c : Config.t) (se : StartEnv)
  (ticks : list TickEnv) (w : World) :
  startup_ok c se = true ->
  ThingsBoardClient.total_sent (tb_client (snd (main c se ticks w)))
  = message_count (snd (main c se ticks w)) + 1.
Proof.
  intros Hok. unfold startup_ok in Hok. unfold main, run_bridge.
  destruct (summary se) as [[]|e0]; [|discriminate].
  destruct (Config.validate_config c) as [|err errs]; [|discriminate].
  destruct (launch se) as [[]|e2]; [|discriminate].
  destruct (dashboard se) as [[]|e3]; [|discriminate].
  apply andb_true_iff in Hok. destruct Hok as [Hok Hsetup].
  apply andb_true_iff in Hok. destruct Hok as [Hps Hlogin].
  rewrite Hlogin, Hsetup. cbn [negb].
  destruct (call_test_connection_any se (init (Config.loop c) ThingsBoardClient.init w))
    as (_ & _ & Hm & _ & _ & Hr).
  destruct (call_test_connection se (init (Config.loop c) ThingsBoardClient.init w))
    as [[[|]|e1] b1]; cbn [fst snd] in *.
  - destruct Hr as [_ Hsent].
    pose proof (proj1 (run_streaming_any (Config.loop c) (Config.ticks c ticks) b1))
      as Hrun.
    cbn [init message_count tb_client ThingsBoardClient.init
         ThingsBoardClient.total_sent] in Hm, Hsent.
    destruct (run_streaming (Config.loop c) (Config.ticks c ticks) b1)
      as [[| |e4|e4] b2];
      try destruct (is_Exception e4); cbn [fst snd] in *; lia.
  - congruence.
  - destruct Hr as [_ Hr]. congruence.
Qed.

End Startup.

Section StartupRuns.
Import Bridge Main.
#[local] Existing Instance Sample.python.

Lemma failed_start_requests_witness :
  posted (trace (world (snd (main Sample.config (Sample.start 401)
                               [Sample.shows (js "{'a':1}") (Sample.answered 200)]
                               Sample.w0))))
  = posted (trace Sample.w0)
    ++ match summary (Sample.start 401), Config.validate_config Sample.config with
       | Ok _, [] => [ThingsBoardClient.test_data]
       | _, _ => []
       end.
Proof.
  apply (@failed_start_requests Sample.python Sample.config (Sample.start 401)
           [Sample.shows (js "{'a':1}") (Sample.answered 200)] Sample.w0).
  vm_compute. reflexivity.
Defined.

Lemma total_sent_counts_probe_witness :
  ThingsBoardClient.total_sent
    (tb_client (snd (main Sample.config (Sample.start 200)
                       [Sample.shows (js "{'a':1}") (Sample.answered 200);
                        Sample.shows (js "{'a':1}{'b':2}") (Sample.answered 500)]
                       Sample.w0)))
  = message_count (snd (main Sample.config (Sample.start 200)
                          [Sample.shows (js "{'a':1}") (Sample.answered 200);
                           Sample.shows (js "{'a':1}{'b':2}") (Sample.answered 500)]
                          Sample.w0)) + 1.
Proof.
  apply (@total_sent_counts_probe Sample.python Sample.config (Sample.start 200)
           [Sample.shows (js "{'a':1}") (Sample.answered 200);
            Sample.shows (js "{'a':1}{'b':2}") (Sample.answered 500)] Sample.w0).
  vm_compute. reflexivity.
Defined.

Example main_runs :
  fst (main Sample.config (Sample.start 200)
         [Sample.shows (js "{'a':1}") (Sample.answered 200)] Sample.w0)
  = StillRunning /\
  fst (main Sample.config (Sample.start 200)
         [Sample.shows (js "{'a':1}") Sample.print_raises] Sample.w0)
  = Exit 0 /\
  fst (main Sample.config (Sample.start 500)
         [Sample.shows (js "{'a':1}") (Sample.answered 200)] Sample.w0)
  = Exit 1.
Proof. vm_compute. repeat split. Qed.

(** A [finally] clause that raises after the loop was left by an
    exception: the process exits with 1; and rates that are nan or
    [inf] pass the validation. *)
Example main_closing_raises :
  fst (main Sample.config (Sample.start 200)
         [{| inner_text := Ok (js "{'a':1}");
             sends := fun _ => Sample.print_raises;
             poll := Ok tt;
             stats_print := Ok tt;
             closing := Raise OtherException |}] Sample.w0)
  = Exit 1 /\
  Config.validate_config
    {| Config.TB_TOKEN := py "device-token";
       Config.TINKERCAD_CLASS_CODE := py "CLASS1234";
       Config.TINKERCAD_LOGIN_CODE := py "student";
       Config.MAX_SEND_HZ := NaN;
       Config.POLL_SEC := Inf;
       Config.PRINT_PREVIEW := true |} = [].
Proof. vm_compute. repeat split. Qed.

End StartupRuns.
